(** * Clarity web UI: the chunked model import and its verification

    A shallow embedding of
      - [web-ui/src/lib/storage.ts]          (object [modelStorage]),
      - [web-ui/src/stores/model-store.ts]   (the zustand store [useModelStore]),
      - [web-ui/src/lib/constants.ts]        ([KNOWN_MODEL_HASHES],
                                              [MODEL_VALIDATION], [UI_MESSAGES]).

    Conventions.
      - A JS [Blob] is a handle with a [size] and a [slice]; the code never
        looks at the bytes itself.  It is modelled as a size together with a
        byte-at-index function, so that a 100 MiB file is a small term.
        [arrayBuffer] materialises the bytes as a [list byte].
      - Byte counts and offsets are non-negative JS numbers below 2^53:
        they are [N].  Quota figures are [Z] (their difference may be
        negative).  [importProgress] is a JS double; it is modelled by the
        exact rational [Q] the expression denotes.
      - IndexedDB, [navigator.storage] and [crypto.subtle] are the platform:
        a record [Platform] says what the quota API answers, which database
        call throws, and what SHA-256 is.
      - [async] functions are run to completion; a computation is a function
        from the persistent state to a completion (value, thrown error, or
        out of fuel for the [while] loop), the new state and the events
        (database calls and status updates) it emitted, in order. *)

From Stdlib Require Import Strings.Byte.
From Stdlib Require Import List String Ascii NArith ZArith QArith Bool Lia.
From Stdlib Require Import Sorted.
From Stdlib Require Import PrimFloat Uint63.
From Stdlib Require Import DecimalString.
Import ListNotations.

Local Open Scope string_scope.
Local Open Scope N_scope.

Abbreviation byte := Byte.byte.

(* ------------------------------------------------------------------ *)
(** * Blobs and files *)

Record Blob : Type := mkBlob {
  size : N;
  byteAt : N -> byte
}.

Record File : Type := mkFile {
  name : string;
  content : Blob
}.

(** [blob.slice(start, end)] for non-negative arguments (File API:
    both ends are clamped to the size, the span is never negative). *)
Definition slice (b : Blob) (start end_ : N) : Blob :=
  let relativeStart := N.min start (size b) in
  let relativeEnd := N.min end_ (size b) in
  {| size := relativeEnd - relativeStart;
     byteAt := fun i => byteAt b (relativeStart + i) |}.

Definition emptyBlob : Blob :=
  {| size := 0; byteAt := fun _ => Byte.x00 |}.

Definition appendBlob (a b : Blob) : Blob :=
  {| size := size a + size b;
     byteAt := fun i => if i <? size a then byteAt a i
                        else byteAt b (i - size a) |}.

(** [new Blob(parts)] *)
Definition newBlob (parts : list Blob) : Blob :=
  fold_right appendBlob emptyBlob parts.

(** [await blob.arrayBuffer()] *)
Definition arrayBuffer (b : Blob) : list byte :=
  map (fun i => byteAt b (N.of_nat i)) (seq 0 (N.to_nat (size b))).

(** A blob holding given bytes. *)
Definition blobOfBytes (bs : list byte) : Blob :=
  {| size := N.of_nat (List.length bs);
     byteAt := fun i => nth (N.to_nat i) bs Byte.x00 |}.

(* ------------------------------------------------------------------ *)
(** * constants.ts *)

Record KnownModel : Type := mkKnownModel {
  km_name : string;
  km_size : string;
  km_source : string
}.

(** The own properties of the object [KNOWN_MODEL_HASHES]. *)
Definition KNOWN_MODEL_HASHES : list (string * KnownModel) :=
  [ ("e3b0c44298fc1c149afbf4c8996fb92427ae41e4649b934ca495991b7852b855",
     {| km_name := "test-model.gguf";
        km_size := "~1KB";
        km_source := "Test Model" |}) ].

Module MODEL_VALIDATION.
Definition MIN_SIZE : N := 100 * 1024 * 1024.
Definition MAX_SIZE : N := 15 * 1024 * 1024 * 1024.
Definition EXPECTED_EXTENSION : string := ".gguf".
End MODEL_VALIDATION.

Module UI_MESSAGES.
Definition IMPORT_ERROR := "Failed to import model".
Definition FILE_TOO_LARGE :=
  "File size too large. Please select a smaller model file.".
Definition INVALID_FILE_TYPE :=
  "Please select a valid GGUF model file (.gguf extension)".
Definition STORAGE_QUOTA_EXCEEDED :=
  "Not enough storage space. Please free up space and try again.".
End UI_MESSAGES.

Definition FILE_TOO_SMALL :=
  "File too small. Please select a valid model file.".

(* ------------------------------------------------------------------ *)
(** * JS helpers *)

(** [s.endsWith(suffix)] *)
Definition endsWith (s suffix : string) : bool :=
  let n := String.length s in
  let m := String.length suffix in
  (m <=? n)%nat && String.eqb (substring (n - m) m s) suffix.

(** Property names every plain object inherits from [Object.prototype]:
    [obj[k]] is truthy for them although [k] is no own property. *)
Definition Object_prototype_keys : list string :=
  [ "constructor"; "toString"; "toLocaleString"; "valueOf";
    "hasOwnProperty"; "isPrototypeOf"; "propertyIsEnumerable";
    "__proto__"; "__defineGetter__"; "__defineSetter__";
    "__lookupGetter__"; "__lookupSetter__" ].

Inductive Property (A : Type) : Type :=
| Own (v : A)
| Inherited
| Undefined.
Arguments Own {A} v.
Arguments Inherited {A}.
Arguments Undefined {A}.

Fixpoint assoc {A : Type} (k : string) (l : list (string * A)) : option A :=
  match l with
  | [] => None
  | (k', v) :: l' => if String.eqb k k' then Some v else assoc k l'
  end.

(** [obj[k]] on an object literal *)
Definition getProperty {A : Type} (obj : list (string * A)) (k : string)
  : Property A :=
  match assoc k obj with
  | Some v => Own v
  | None =>
      if existsb (String.eqb k) Object_prototype_keys then Inherited
      else Undefined
  end.

(** [!!p] *)
Definition truthy {A : Type} (p : Property A) : bool :=
  match p with
  | Undefined => false
  | _ => true
  end.

Definition hexDigit (n : N) : ascii :=
  nth (N.to_nat n)
      (list_ascii_of_string "0123456789abcdef") "0"%char.

(** [b.toString(16)] for a byte *)
Definition toString16 (b : byte) : string :=
  let n := Byte.to_N b in
  if n <? 16 then String (hexDigit n) EmptyString
  else String (hexDigit (n / 16)) (String (hexDigit (n mod 16)) EmptyString).

(** [s.padStart(2, '0')] for a string of one or two characters *)
Definition padStart2 (s : string) : string :=
  match s with
  | EmptyString => "00"
  | String c EmptyString => String "0"%char (String c EmptyString)
  | _ => s
  end.

(** [hashArray.map((b) => b.toString(16).padStart(2, '0')).join('')] *)
Definition hexEncode (bs : list byte) : string :=
  fold_right (fun b acc => padStart2 (toString16 b) ++ acc) "" bs.

(** A JS number that is an integer, printed in a template literal. *)
Definition numberToString (z : Z) : string :=
  NilZero.string_of_int (Z.to_int z).

(* ------------------------------------------------------------------ *)
(** * The persistent state *)

Inductive VerificationStatus : Type := verified | unverified | failed.

(** [interface ModelStatus]; an optional field is [None] when undefined. *)
Record ModelStatus : Type := mkModelStatus {
  isImported : bool;
  isLoaded : bool;
  fileName : option string;
  fileSize : option N;
  sha256 : option string;
  importProgress : Q;
  error : option string;
  isVerified : option bool;
  verificationStatus : option VerificationStatus
}.

(** [Partial<ModelStatus>]: [None] is a key that is absent from the
    object literal; [Some None] is a key that is present with the value
    [undefined] (the spread copies it all the same). *)
Record StatusUpdate : Type := mkStatusUpdate {
  u_isImported : option bool;
  u_isLoaded : option bool;
  u_fileName : option (option string);
  u_fileSize : option (option N);
  u_sha256 : option (option string);
  u_importProgress : option Q;
  u_error : option (option string);
  u_isVerified : option (option bool);
  u_verificationStatus : option (option VerificationStatus)
}.

Definition override {A : Type} (old : A) (new : option A) : A :=
  match new with
  | Some v => v
  | None => old
  end.

(** [{ ...state.modelStatus, ...status }] *)
Definition spread (s : ModelStatus) (u : StatusUpdate) : ModelStatus :=
  {| isImported := override (isImported s) (u_isImported u);
     isLoaded := override (isLoaded s) (u_isLoaded u);
     fileName := override (fileName s) (u_fileName u);
     fileSize := override (fileSize s) (u_fileSize u);
     sha256 := override (sha256 s) (u_sha256 u);
     importProgress := override (importProgress s) (u_importProgress u);
     error := override (error s) (u_error u);
     isVerified := override (isVerified s) (u_isVerified u);
     verificationStatus :=
       override (verificationStatus s) (u_verificationStatus u) |}.

(** The value of the [modelStore] object store under the key ['model']. *)
Record StoredModel : Type := mkStoredModel {
  sm_file : File;
  sm_sha256 : string;
  sm_fileName : string
}.

(** The zustand state (persisted under ['clarity-model-store']) and the
    two object stores of the database ['ClarityDB'].  An object store
    keeps its records in ascending key order: [chunkStore] is a list
    sorted by offset. *)
Record World : Type := mkWorld {
  modelStatus : ModelStatus;
  modelStore : option StoredModel;
  chunkStore : list (N * Blob)
}.

Definition initialStatus : ModelStatus :=
  {| isImported := false;
     isLoaded := false;
     fileName := None;
     fileSize := None;
     sha256 := None;
     importProgress := 0%Q;
     error := None;
     isVerified := None;
     verificationStatus := Some unverified |}.

Definition initialWorld : World :=
  {| modelStatus := initialStatus; modelStore := None; chunkStore := [] |}.

(* ------------------------------------------------------------------ *)
(** * The platform and the computations *)

(** What a [throw] or a rejected promise carries: an [Error] (a
    [DOMException] is one) with its message, or any other value. *)
Inductive Thrown : Type :=
| ErrorObject (message : string)
| OtherValue.

(** The calls [storage.ts] makes on the database. *)
Inductive DbCall : Type :=
| PutModel
| GetModel
| DeleteModel
| ClearChunks
| PutChunk (chunk : Blob) (offset : N)
| GetAllChunks.

(** The object [navigator.storage.estimate()] resolves to. *)
Record StorageEstimate : Type := mkEstimate {
  usage : option Z;
  quota : option Z
}.

Inductive StorageManager : Type :=
| EstimateMissing                       (* no [navigator.storage.estimate] *)
| EstimateRejects (e : Thrown)
| EstimateResolves (est : StorageEstimate).

Record Platform : Type := mkPlatform {
  storageManager : StorageManager;
  dbFault : DbCall -> option Thrown;     (* which database call throws *)
  digestFault : option Thrown;           (* [arrayBuffer] or [digest] rejects *)
  SHA256 : list byte -> list byte
}.

Inductive Event : Type :=
| Db (c : DbCall)                         (* a call on the database *)
| StatusMerged (u : StatusUpdate)         (* [setModelStatus(u)] *)
| StatusReplaced (s : ModelStatus).       (* [set({ modelStatus: s })] *)

Inductive Completion (A : Type) : Type :=
| Return (a : A)
| Throw (e : Thrown)
| OutOfFuel.
Arguments Return {A} a.
Arguments Throw {A} e.
Arguments OutOfFuel {A}.

Definition M (A : Type) : Type := World -> Completion A * World * list Event.

Definition ret {A : Type} (a : A) : M A := fun w => (Return a, w, []).

Definition throw {A : Type} (e : Thrown) : M A := fun w => (Throw e, w, []).

Definition bind {A B : Type} (m : M A) (k : A -> M B) : M B :=
  fun w =>
    match m w with
    | (Return a, w1, t1) =>
        let '(r, w2, t2) := k a w1 in (r, w2, (t1 ++ t2)%list)
    | (Throw e, w1, t1) => (Throw e, w1, t1)
    | (OutOfFuel, w1, t1) => (OutOfFuel, w1, t1)
    end.

(** [try { m } catch (error) { handler error }] *)
Definition tryCatch {A : Type} (m : M A) (handler : Thrown -> M A) : M A :=
  fun w =>
    match m w with
    | (Throw e, w1, t1) =>
        let '(r, w2, t2) := handler e w1 in (r, w2, (t1 ++ t2)%list)
    | other => other
    end.

Definition getWorld : M World := fun w => (Return w, w, []).

Definition modify (f : World -> World) : M unit :=
  fun w => (Return tt, f w, []).

Definition emit (e : Event) : M unit := fun w => (Return tt, w, [e]).

Declare Scope js_scope.
Delimit Scope js_scope with js.
Notation "x <- m ;; k" := (bind m (fun x => k))
  (at level 61, m at next level, right associativity) : js_scope.
Notation "m ;; k" := (bind m (fun _ => k))
  (at level 61, right associativity) : js_scope.

Definition outcome {A : Type} (r : Completion A * World * list Event)
  : Completion A := fst (fst r).
Definition world {A : Type} (r : Completion A * World * list Event)
  : World := snd (fst r).
Definition events {A : Type} (r : Completion A * World * list Event)
  : list Event := snd r.

(** [db.put(CHUNK_STORE_NAME, value, key)]: insert or replace, the store
    stays sorted by key. *)
Fixpoint idbPut (k : N) (v : Blob) (rows : list (N * Blob))
  : list (N * Blob) :=
  match rows with
  | [] => [(k, v)]
  | (k', v') :: rest =>
      if k <? k' then (k, v) :: rows
      else if k =? k' then (k, v) :: rest
      else (k', v') :: idbPut k v rest
  end.

(** [db.getAll(CHUNK_STORE_NAME)]: the values, in ascending key order. *)
Definition idbGetAll (rows : list (N * Blob)) : list Blob := map snd rows.

Definition GiB : Z := 1024 * 1024 * 1024.

(** [x ?? 0] and [x || 0] on a number that may be undefined *)
Definition orZero (x : option Z) : Z :=
  match x with
  | Some v => v
  | None => 0%Z
  end.

Record QuotaCheck : Type := mkQuotaCheck {
  hasQuota : bool;
  qc_usage : Z;
  qc_quota : Z
}.

Section Program.

Variable P : Platform.

Local Open Scope js_scope.

(** [await dbPromise] followed by the call: it is recorded, and it
    throws when the platform says so. *)
Definition db (c : DbCall) : M unit :=
  emit (Db c) ;;
  match dbFault P c with
  | Some e => throw e
  | None => ret tt
  end.

(** ** storage.ts: the object [modelStorage] *)

Definition storeModel (file : File) (sha256 fileName : string) : M unit :=
  db PutModel ;;
  modify (fun w =>
    {| modelStatus := modelStatus w;
       modelStore := Some (mkStoredModel file sha256 fileName);
       chunkStore := chunkStore w |}).

Definition getModel : M (option StoredModel) :=
  db GetModel ;;
  w <- getWorld ;;
  ret (modelStore w).

Definition deleteModel : M unit :=
  db DeleteModel ;;
  modify (fun w =>
    {| modelStatus := modelStatus w;
       modelStore := None;
       chunkStore := chunkStore w |}).

Definition getStorageQuota : M StorageEstimate :=
  match storageManager P with
  | EstimateResolves est => ret est
  | EstimateRejects e => throw e
  | EstimateMissing => ret {| usage := Some 0%Z; quota := Some 0%Z |}
  end.

Definition clearChunks : M unit :=
  db ClearChunks ;;
  modify (fun w =>
    {| modelStatus := modelStatus w;
       modelStore := modelStore w;
       chunkStore := [] |}).

Definition storeModelChunk (chunk : Blob) (offset : N) : M unit :=
  db (PutChunk chunk offset) ;;
  modify (fun w =>
    {| modelStatus := modelStatus w;
       modelStore := modelStore w;
       chunkStore := idbPut offset chunk (chunkStore w) |}).

Definition calculateSHA256FromChunks : M string :=
  db GetAllChunks ;;
  w <- getWorld ;;
  let chunks := idbGetAll (chunkStore w) in
  let blob := newBlob chunks in
  let buffer := arrayBuffer blob in
  match digestFault P with
  | Some e => throw e
  | None =>
      let hashArray := SHA256 P buffer in
      ret (hexEncode hashArray)
  end.


(** ** model-store.ts: the store [useModelStore] *)

Definition setModelStatus (status : StatusUpdate) : M unit :=
  emit (StatusMerged status) ;;
  modify (fun state =>
    {| modelStatus := spread (modelStatus state) status;
       modelStore := modelStore state;
       chunkStore := chunkStore state |}).

Definition checkStorageQuota : M QuotaCheck :=
  tryCatch
    (est <- getStorageQuota ;;
     let hasQuota :=
       (orZero (quota est) >? orZero (usage est) + 2 * 1024 * 1024 * 1024)%Z in
     ret {| hasQuota := hasQuota;
            qc_usage := orZero (usage est);
            qc_quota := orZero (quota est) |})
    (fun _ => ret {| hasQuota := false; qc_usage := 0; qc_quota := 0 |}).

Definition CHUNK_SIZE : N := 16 * 1024 * 1024.

(** [(offset / file.size) * 80] *)
Definition chunkingProgress (offset fileSize : N) : Q :=
  (inject_Z (Z.of_N offset) / inject_Z (Z.of_N fileSize)) * 80.

(** The same expression on binary64 numbers, as JS computes it (the
    operands are integers below 2^53, which conversion keeps exact). *)
Definition numberOfN (n : N) : float :=
  PrimFloat.of_uint63 (Uint63.of_Z (Z.of_N n)).

Definition chunkingProgressDouble (offset fileSize : N) : float :=
  PrimFloat.mul (PrimFloat.div (numberOfN offset) (numberOfN fileSize))
                (numberOfN 80).

(** The [while (offset < file.size)] loop of step 3.  [fuel] bounds the
    number of iterations; running out of it is [OutOfFuel]. *)
Fixpoint writeLoop (fuel : nat) (file : File) (offset : N) : M unit :=
  if offset <? size (content file) then
    match fuel with
    | O => fun w => (OutOfFuel, w, [])
    | S fuel' =>
        let chunk := slice (content file) offset (offset + CHUNK_SIZE) in
        storeModelChunk chunk offset ;;
        let offset := offset + size chunk in
        setModelStatus
          {| u_isImported := None; u_isLoaded := None; u_fileName := None;
             u_fileSize := None; u_sha256 := None;
             u_importProgress :=
               Some (chunkingProgress offset (size (content file)));
             u_error := None; u_isVerified := None;
             u_verificationStatus := None |} ;;
        writeLoop fuel' file offset
    end
  else ret tt.

(** One iteration for every started window of [CHUNK_SIZE] bytes, and
    one to spare. *)
Definition loopFuel (file : File) : nat :=
  S (N.to_nat (size (content file) / CHUNK_SIZE)).

(** Step 3: [clearChunks], then the loop from offset 0. *)
Definition storeInChunks (file : File) : M unit :=
  clearChunks ;;
  writeLoop (loopFuel file) file 0.

(** The object literal of step 6. *)
Definition finalStatus (file : File) (sha256 : string) : StatusUpdate :=
  let knownModel := getProperty KNOWN_MODEL_HASHES sha256 in
  let isVerified := truthy knownModel in
  {| u_isImported := Some true;
     u_isLoaded := Some true;
     u_fileName := Some (Some (name file));
     u_fileSize := Some (Some (size (content file)));
     u_sha256 := Some (Some sha256);
     u_importProgress := Some 100%Q;
     u_error := Some None;
     u_isVerified := None;
     u_verificationStatus :=
       Some (Some (if isVerified then verified else unverified)) |}.

(** The object literal of the [catch] block. *)
Definition failureStatus (e : Thrown) : StatusUpdate :=
  let errorMessage :=
    match e with
    | ErrorObject message => message
    | OtherValue => UI_MESSAGES.IMPORT_ERROR
    end in
  {| u_isImported := None; u_isLoaded := None; u_fileName := None;
     u_fileSize := None; u_sha256 := None;
     u_importProgress := Some 0%Q;
     u_error := Some (Some errorMessage);
     u_isVerified := None;
     u_verificationStatus := Some (Some failed) |}.

(** The [try] block of [importModel]. *)
Definition importSteps (file : File) : M unit :=
  (* Reset status *)
  setModelStatus
    {| u_isImported := None; u_isLoaded := None; u_fileName := None;
       u_fileSize := None; u_sha256 := None;
       u_importProgress := Some 0%Q;
       u_error := Some None;
       u_isVerified := None;
       u_verificationStatus := Some (Some unverified) |} ;;
  (* Step 1: validate file type and size *)
  if negb (endsWith (name file) MODEL_VALIDATION.EXPECTED_EXTENSION) then
    throw (ErrorObject UI_MESSAGES.INVALID_FILE_TYPE)
  else if size (content file) <? MODEL_VALIDATION.MIN_SIZE then
    throw (ErrorObject FILE_TOO_SMALL)
  else if MODEL_VALIDATION.MAX_SIZE <? size (content file) then
    throw (ErrorObject UI_MESSAGES.FILE_TOO_LARGE)
  else
  (* Step 2: check storage quota *)
  q <- checkStorageQuota ;;
  if negb (hasQuota q) then
    let availableGB := ((qc_quota q - qc_usage q) / GiB)%Z in
    throw (ErrorObject
             (UI_MESSAGES.STORAGE_QUOTA_EXCEEDED ++ " (Available: "
              ++ numberToString availableGB ++ "GB)"))
  else
  (* Step 3: store model in chunks *)
  storeInChunks file ;;
  (* Step 4: calculate SHA256 hash from chunks *)
  sha256 <- calculateSHA256FromChunks ;;
  setModelStatus
    {| u_isImported := None; u_isLoaded := None; u_fileName := None;
       u_fileSize := None; u_sha256 := None;
       u_importProgress := Some 90%Q;
       u_error := None; u_isVerified := None;
       u_verificationStatus := None |} ;;
  (* Steps 5 and 6: verify against known hashes, update final status *)
  setModelStatus (finalStatus file sha256).

Definition importModel (file : File) : M unit :=
  tryCatch (importSteps file)
    (fun error =>
       setModelStatus (failureStatus error) ;;
       throw error).

Definition verifyModel : M bool :=
  state <- getWorld ;;
  if negb (isImported (modelStatus state)) then ret false
  else
    tryCatch
      (storedModel <- getModel ;;
       match storedModel with
       | None => ret false
       | Some m =>
           ret (match sha256 (modelStatus state) with
                | Some s => String.eqb (sm_sha256 m) s
                | None => false
                end)
       end)
      (fun _ => ret false).

Definition resetStatus : ModelStatus :=
  {| isImported := false;
     isLoaded := false;
     importProgress := 0%Q;
     verificationStatus := Some unverified;
     fileName := None;
     fileSize := None;
     sha256 := None;
     error := None;
     isVerified := None |}.

Definition resetModel : M unit :=
  tryCatch deleteModel (fun _ => ret tt (* silent fail *)) ;;
  emit (StatusReplaced resetStatus) ;;
  modify (fun state =>
    {| modelStatus := resetStatus;
       modelStore := modelStore state;
       chunkStore := chunkStore state |}).

End Program.

(* ------------------------------------------------------------------ *)
(** * Notions the properties are stated with *)

(** The progress values a run reported: the [importProgress] of every
    [setModelStatus] call that carries one, in order. *)
Fixpoint progressReports (t : list Event) : list Q :=
  match t with
  | [] => []
  | StatusMerged u :: t' =>
      match u_importProgress u with
      | Some p => p :: progressReports t'
      | None => progressReports t'
      end
  | _ :: t' => progressReports t'
  end.

(** The chunk writes a run issued: offset and chunk, in order. *)
Fixpoint putCalls (t : list Event) : list (N * Blob) :=
  match t with
  | [] => []
  | Db (PutChunk chunk offset) :: t' => (offset, chunk) :: putCalls t'
  | _ :: t' => putCalls t'
  end.

Definition totalSize (rows : list (N * Blob)) : N :=
  fold_right (fun r acc => size (snd r) + acc) 0 rows.

(** The bytes the chunk writes of a trace carried. *)
Definition bytesWritten (t : list Event) : N := totalSize (putCalls t).

Inductive NonDecreasing : list Q -> Prop :=
| ND_nil : NonDecreasing []
| ND_one : forall p, NonDecreasing [p]
| ND_cons : forall p q l,
    (p <= q)%Q -> NonDecreasing (q :: l) -> NonDecreasing (p :: q :: l).

(** [Contiguous file from rows to]: the rows are the windows of [file]
    from offset [from] up to offset [to], each keyed by its offset, none
    empty, none longer than [CHUNK_SIZE], each starting where the one
    before ends. *)
Inductive Contiguous (file : File) : N -> list (N * Blob) -> N -> Prop :=
| Contiguous_nil : forall o, Contiguous file o [] o
| Contiguous_cons : forall o chunk rows stop,
    o < size (content file) ->
    chunk = slice (content file) o (o + CHUNK_SIZE) ->
    0 < size chunk <= CHUNK_SIZE ->
    Contiguous file (o + size chunk) rows stop ->
    Contiguous file o ((o, chunk) :: rows) stop.

(** The status update one iteration of the loop makes. *)
Definition progressUpdate (offset fileSize : N) : StatusUpdate :=
  {| u_isImported := None; u_isLoaded := None; u_fileName := None;
     u_fileSize := None; u_sha256 := None;
     u_importProgress := Some (chunkingProgress offset fileSize);
     u_error := None; u_isVerified := None;
     u_verificationStatus := None |}.

(** The state after one iteration that started at [offset]. *)
Definition afterIteration (file : File) (offset : N) (w : World) : World :=
  let chunk := slice (content file) offset (offset + CHUNK_SIZE) in
  {| modelStatus :=
       spread (modelStatus w)
              (progressUpdate (offset + size chunk) (size (content file)));
     modelStore := modelStore w;
     chunkStore := idbPut offset chunk (chunkStore w) |}.

(** Big-step runs of the [while] loop: from the loop variable [offset]
    and a state, to a completion, the final value of the loop variable,
    the final state and the events. *)
Inductive LoopRun (P : Platform) (file : File)
  : N -> World -> Completion unit -> N -> World -> list Event -> Prop :=
| LoopExit : forall offset w,
    size (content file) <= offset ->
    LoopRun P file offset w (Return tt) offset w []
| LoopThrow : forall offset w e,
    offset < size (content file) ->
    dbFault P (PutChunk (slice (content file) offset (offset + CHUNK_SIZE))
                        offset) = Some e ->
    LoopRun P file offset w (Throw e) offset w
      [Db (PutChunk (slice (content file) offset (offset + CHUNK_SIZE))
                    offset)]
| LoopIterate : forall offset w r offset' w' t,
    offset < size (content file) ->
    dbFault P (PutChunk (slice (content file) offset (offset + CHUNK_SIZE))
                        offset) = None ->
    LoopRun P file
      (offset + size (slice (content file) offset (offset + CHUNK_SIZE)))
      (afterIteration file offset w) r offset' w' t ->
    LoopRun P file offset w r offset' w'
      (Db (PutChunk (slice (content file) offset (offset + CHUNK_SIZE))
                    offset)
       :: StatusMerged
            (progressUpdate
               (offset
                + size (slice (content file) offset (offset + CHUNK_SIZE)))
               (size (content file)))
       :: t).

(** The states the application can be in: the store's operations, on any
    platform, from the initial state. *)
Inductive Reachable : World -> Prop :=
| Reach_initial : Reachable initialWorld
| Reach_setModelStatus : forall w u,
    Reachable w -> Reachable (world (setModelStatus u w))
| Reach_importModel : forall P w file,
    Reachable w -> Reachable (world (importModel P file w))
| Reach_verifyModel : forall P w,
    Reachable w -> Reachable (world (verifyModel P w))
| Reach_resetModel : forall P w,
    Reachable w -> Reachable (world (resetModel P w))
| Reach_checkStorageQuota : forall P w,
    Reachable w -> Reachable (world (checkStorageQuota P w)).

Definition isHexDigit (c : ascii) : bool :=
  existsb (Ascii.eqb c) (list_ascii_of_string "0123456789abcdef").

Fixpoint isHexString (s : string) : bool :=
  match s with
  | EmptyString => true
  | String c s' => isHexDigit c && isHexString s'
  end.

(** The events of the iterations that wrote [rows]. *)
Definition iterationEvents (file : File) (rows : list (N * Blob))
  : list Event :=
  flat_map (fun row =>
              [Db (PutChunk (snd row) (fst row));
               StatusMerged (progressUpdate (fst row + size (snd row))
                                            (size (content file)))]) rows.

(** The state after the iterations that wrote [rows]. *)
Definition afterIterations (file : File) (rows : list (N * Blob))
  (w : World) : World :=
  fold_left (fun w row => afterIteration file (fst row) w) rows w.

(** The state after [setModelStatus(u)]. *)
Definition withStatus (u : StatusUpdate) (w : World) : World :=
  {| modelStatus := spread (modelStatus w) u;
     modelStore := modelStore w;
     chunkStore := chunkStore w |}.

(** The state after a [clearChunks] that went through. *)
Definition cleared (w : World) : World :=
  {| modelStatus := modelStatus w;
     modelStore := modelStore w;
     chunkStore := [] |}.

Definition startUpdate : StatusUpdate :=
  {| u_isImported := None; u_isLoaded := None; u_fileName := None;
     u_fileSize := None; u_sha256 := None;
     u_importProgress := Some 0%Q;
     u_error := Some None;
     u_isVerified := None;
     u_verificationStatus := Some (Some unverified) |}.

Definition hashedUpdate : StatusUpdate :=
  {| u_isImported := None; u_isLoaded := None; u_fileName := None;
     u_fileSize := None; u_sha256 := None;
     u_importProgress := Some 90%Q;
     u_error := None; u_isVerified := None;
     u_verificationStatus := None |}.

Definition quotaMessage (q : QuotaCheck) : string :=
  UI_MESSAGES.STORAGE_QUOTA_EXCEEDED ++ " (Available: "
  ++ numberToString ((qc_quota q - qc_usage q) / GiB)%Z ++ "GB)".

(** What step 1 accepts. *)
Definition validFile (file : File) : Prop :=
  endsWith (name file) MODEL_VALIDATION.EXPECTED_EXTENSION = true /\
  MODEL_VALIDATION.MIN_SIZE <= size (content file)
    <= MODEL_VALIDATION.MAX_SIZE.

(** The digest step 4 computes from a chunk store. *)
Definition digestOf (P : Platform) (rows : list (N * Blob)) : string :=
  hexEncode (SHA256 P (arrayBuffer (newBlob (idbGetAll rows)))).

(** The answer of the quota check: it depends on the platform only. *)
Definition quotaAnswer (P : Platform) : QuotaCheck :=
  match storageManager P with
  | EstimateResolves est =>
      {| hasQuota :=
           (orZero (quota est) >? orZero (usage est) + 2 * GiB)%Z;
         qc_usage := orZero (usage est);
         qc_quota := orZero (quota est) |}
  | _ => {| hasQuota := false; qc_usage := 0; qc_quota := 0 |}
  end.

(** The stages of an import session in which it can fail. *)
Inductive Stage : Type := Validating | QuotaChecking | Writing | Hashing.

(** [StageFails P file w0 stage e w1 t]: from the state [w0] (after the
    status was reset) the [try] block throws [e] in [stage], having
    reached the state [w1] and emitted the events [t]. *)
Inductive StageFails (P : Platform) (file : File) (w0 : World)
  : Stage -> Thrown -> World -> list Event -> Prop :=
| Fail_extension :
    endsWith (name file) MODEL_VALIDATION.EXPECTED_EXTENSION = false ->
    StageFails P file w0 Validating
      (ErrorObject UI_MESSAGES.INVALID_FILE_TYPE) w0 []
| Fail_too_small :
    endsWith (name file) MODEL_VALIDATION.EXPECTED_EXTENSION = true ->
    size (content file) < MODEL_VALIDATION.MIN_SIZE ->
    StageFails P file w0 Validating (ErrorObject FILE_TOO_SMALL) w0 []
| Fail_too_large :
    endsWith (name file) MODEL_VALIDATION.EXPECTED_EXTENSION = true ->
    MODEL_VALIDATION.MAX_SIZE < size (content file) ->
    StageFails P file w0 Validating
      (ErrorObject UI_MESSAGES.FILE_TOO_LARGE) w0 []
| Fail_quota :
    validFile file ->
    hasQuota (quotaAnswer P) = false ->
    StageFails P file w0 QuotaChecking
      (ErrorObject (quotaMessage (quotaAnswer P))) w0 []
| Fail_clear : forall e,
    validFile file ->
    hasQuota (quotaAnswer P) = true ->
    dbFault P ClearChunks = Some e ->
    StageFails P file w0 Writing e w0 [Db ClearChunks]
| Fail_put : forall e rows o,
    validFile file ->
    hasQuota (quotaAnswer P) = true ->
    dbFault P ClearChunks = None ->
    Contiguous file 0 rows o ->
    o < size (content file) ->
    dbFault P (PutChunk (slice (content file) o (o + CHUNK_SIZE)) o)
      = Some e ->
    StageFails P file w0 Writing e
      (afterIterations file rows (cleared w0))
      (Db ClearChunks
       :: iterationEvents file rows
       ++ [Db (PutChunk (slice (content file) o (o + CHUNK_SIZE)) o)])%list
| Fail_hash : forall e rows,
    validFile file ->
    hasQuota (quotaAnswer P) = true ->
    dbFault P ClearChunks = None ->
    Contiguous file 0 rows (size (content file)) ->
    (dbFault P GetAllChunks = Some e \/
     dbFault P GetAllChunks = None /\ digestFault P = Some e) ->
    StageFails P file w0 Hashing e
      (afterIterations file rows (cleared w0))
      (Db ClearChunks :: iterationEvents file rows ++ [Db GetAllChunks])%list.

(** The two ways an import session ends. *)
Inductive ImportRun (P : Platform) (file : File) (w : World)
  : Completion unit -> World -> list Event -> Prop :=
| Import_completed : forall rows,
    validFile file ->
    hasQuota (quotaAnswer P) = true ->
    dbFault P ClearChunks = None ->
    Contiguous file 0 rows (size (content file)) ->
    dbFault P GetAllChunks = None ->
    digestFault P = None ->
    let w1 := afterIterations file rows (cleared (withStatus startUpdate w)) in
    let sha256 := digestOf P (chunkStore w1) in
    ImportRun P file w (Return tt)
      (withStatus (finalStatus file sha256) (withStatus hashedUpdate w1))
      (StatusMerged startUpdate
       :: Db ClearChunks
       :: iterationEvents file rows
       ++ [Db GetAllChunks; StatusMerged hashedUpdate;
           StatusMerged (finalStatus file sha256)])%list
| Import_failed : forall stage e w1 t,
    StageFails P file (withStatus startUpdate w) stage e w1 t ->
    ImportRun P file w (Throw e)
      (withStatus (failureStatus e) w1)
      (StatusMerged startUpdate :: t ++ [StatusMerged (failureStatus e)])%list.

(** ** Concrete platforms, files and states *)

Definition MiB : N := 1024 * 1024.

(** A blob of [n] zero bytes. *)
Definition zeros (n : N) : Blob := {| size := n; byteAt := fun _ => x00 |}.

Definition model100 : File := mkFile "model.gguf" (zeros (100 * MiB)).
Definition model32 : File := mkFile "model.gguf" (zeros (32 * MiB)).
Definition model_txt : File := mkFile "model.txt" (zeros (100 * MiB)).
Definition my_model : File := mkFile "my-model.gguf" (zeros (100 * MiB)).

(** 50 GiB of quota, nothing used, no call throws; the digest function
    is a stand-in (SHA-256 itself is not modelled). *)
Definition quietPlatform : Platform :=
  {| storageManager :=
       EstimateResolves {| usage := Some 0%Z; quota := Some (50 * GiB)%Z |};
     dbFault := fun _ => None;
     digestFault := None;
     SHA256 := fun _ => repeat x00 32 |}.

(** As [quietPlatform], but the chunk write at offset 16 MiB throws. *)
Definition secondPutThrows : Platform :=
  {| storageManager := storageManager quietPlatform;
     dbFault := fun c =>
       match c with
       | PutChunk _ offset =>
           if offset =? 16 * MiB
           then Some (ErrorObject "QuotaExceededError") else None
       | _ => None
       end;
     digestFault := None;
     SHA256 := SHA256 quietPlatform |}.

(** As [quietPlatform], but reading the chunks back throws. *)
Definition getAllThrows : Platform :=
  {| storageManager := storageManager quietPlatform;
     dbFault := fun c =>
       match c with
       | GetAllChunks => Some (ErrorObject "The operation failed")
       | _ => None
       end;
     digestFault := None;
     SHA256 := SHA256 quietPlatform |}.

Definition testDigest : string :=
  "e3b0c44298fc1c149afbf4c8996fb92427ae41e4649b934ca495991b7852b855".

(** ** Notions of the properties *)

Definition invalidInput (file : File) : Prop :=
  endsWith (name file) MODEL_VALIDATION.EXPECTED_EXTENSION = false \/
  size (content file) < MODEL_VALIDATION.MIN_SIZE \/
  MODEL_VALIDATION.MAX_SIZE < size (content file).

Definition invalidInputMessages : list string :=
  [UI_MESSAGES.INVALID_FILE_TYPE; FILE_TOO_SMALL; UI_MESSAGES.FILE_TOO_LARGE].

Definition reportsOf (file : File) (rows : list (N * Blob)) : list Q :=
  map (fun row => chunkingProgress (fst row + size (snd row))
                                   (size (content file))) rows.

(** The part of the status that names the imported model. *)
Definition identity (s : ModelStatus)
  : bool * bool * option string * option N * option string * option bool :=
  (isImported s, isLoaded s, fileName s, fileSize s, sha256 s, isVerified s).

Definition classify (digest : string) : VerificationStatus :=
  match assoc digest KNOWN_MODEL_HASHES with
  | Some _ => verified
  | None => unverified
  end.

(** The bytes written after each of the chunk writes [rows], counted
    from [written]. *)
Fixpoint runningTotals (written : N) (rows : list (N * Blob)) : list N :=
  match rows with
  | [] => []
  | row :: rows' =>
      let written := written + size (snd row) in
      written :: runningTotals written rows'
  end.

(** The operations of the store [useModelStore]; [setModelStatus], which
    writes what it is given, is left out: nothing outside the store calls
    it. *)
Inductive Operation : Type :=
| ImportModel (file : File)
| VerifyModel
| CheckStorageQuota
| ResetModel.

Definition perform (P : Platform) (op : Operation) (w : World) : World :=
  match op with
  | ImportModel file => world (importModel P file w)
  | VerifyModel => world (verifyModel P w)
  | CheckStorageQuota => world (checkStorageQuota P w)
  | ResetModel => world (resetModel P w)
  end.

(** What erasing the record of the imported model can mean: a field of
    the record was set and is now undefined, [isImported] went from true
    to false, or the row of the model table is gone. *)
Definition erases (before after : World) : Prop :=
  (isImported (modelStatus before) = true /\
   isImported (modelStatus after) = false) \/
  (fileName (modelStatus before) <> None /\
   fileName (modelStatus after) = None) \/
  (fileSize (modelStatus before) <> None /\
   fileSize (modelStatus after) = None) \/
  (sha256 (modelStatus before) <> None /\
   sha256 (modelStatus after) = None) \/
  (verificationStatus (modelStatus before) <> None /\
   verificationStatus (modelStatus after) = None) \/
  (modelStore before <> None /\ modelStore after = None).

(* ------------------------------------------------------------------ *)
(** * More of the application *)

(** Rows whose chunk writes the platform lets through. *)
Definition quietRows (P : Platform) (rows : list (N * Blob)) : Prop :=
  Forall (fun row => dbFault P (PutChunk (snd row) (fst row)) = None) rows.

(** The status updates of a trace, in order. *)
Definition statusUpdates (t : list Event) : list StatusUpdate :=
  flat_map (fun e => match e with StatusMerged u => [u] | _ => [] end) t.

(** The status after the updates [us], applied in order. *)
Definition replay (us : list StatusUpdate) (s : ModelStatus) : ModelStatus :=
  fold_left spread us s.

(** The state an import leaves: the status with the updates of the trace
    replayed, the model table as it was, and either the old chunk store
    or the rows written. *)
Definition stateAfter (t : list Event) (rows : option (list (N * Blob)))
  (w : World) : World :=
  {| modelStatus := replay (statusUpdates t) (modelStatus w);
     modelStore := modelStore w;
     chunkStore := match rows with
                   | Some rows => rows
                   | None => chunkStore w
                   end |}.

Definition orElse {A : Type} (later earlier : option A) : option A :=
  match later with
  | Some v => Some v
  | None => earlier
  end.

(** One update that does what [u1] followed by [u2] does. *)
Definition merge (u1 u2 : StatusUpdate) : StatusUpdate :=
  {| u_isImported := orElse (u_isImported u2) (u_isImported u1);
     u_isLoaded := orElse (u_isLoaded u2) (u_isLoaded u1);
     u_fileName := orElse (u_fileName u2) (u_fileName u1);
     u_fileSize := orElse (u_fileSize u2) (u_fileSize u1);
     u_sha256 := orElse (u_sha256 u2) (u_sha256 u1);
     u_importProgress := orElse (u_importProgress u2) (u_importProgress u1);
     u_error := orElse (u_error u2) (u_error u1);
     u_isVerified := orElse (u_isVerified u2) (u_isVerified u1);
     u_verificationStatus :=
       orElse (u_verificationStatus u2) (u_verificationStatus u1) |}.

(** [calculateSHA256(file)] of lib/utils.ts: a [FileReader] reads the
    whole file; [readerFails] says that it reports an error. *)
Definition calculateSHA256 (P : Platform) (readerFails : bool) (file : File)
  : Completion string :=
  if readerFails then Throw (ErrorObject "Failed to read file")
  else
    let buffer := arrayBuffer (content file) in
    match digestFault P with
    | Some e => Throw e
    | None => Return (hexEncode (SHA256 P buffer))
    end.

(** 1 GiB free of 50 GiB. *)
Definition crowdedPlatform : Platform :=
  {| storageManager :=
       EstimateResolves {| usage := Some (49 * GiB)%Z;
                           quota := Some (50 * GiB)%Z |};
     dbFault := fun _ => None;
     digestFault := None;
     SHA256 := SHA256 quietPlatform |}.

Record Toast : Type := mkToast {
  toast_title : string;
  toast_description : string;
  toast_destructive : bool            (* [variant: "destructive"] *)
}.

(** [a === b] for an optional value and a value. *)
Definition sameString (a : option string) (b : string) : bool :=
  match a with
  | Some s => String.eqb s b
  | None => false
  end.

Definition sameNumber (a : option N) (b : N) : bool :=
  match a with
  | Some n => n =? b
  | None => false
  end.

(** [handleFileSelect(file)] of ModelImport.tsx, for the [modelStatus]
    the component was rendered with: the selected file it leaves
    ([None] for [null]) and the toasts it shows. *)
Definition handleFileSelect (modelStatus : ModelStatus) (file : File)
  : option File * list Toast :=
  if negb (endsWith (name file) ".gguf") then
    (None, [mkToast "Invalid file type" UI_MESSAGES.INVALID_FILE_TYPE true])
  else if size (content file) <? 100 * 1024 * 1024 then
    (None, [mkToast "File too small"
                    "Please select a valid model file (minimum 100MB)" true])
  else if 15 * 1024 * 1024 * 1024 <? size (content file) then
    (None, [mkToast "File too large" UI_MESSAGES.FILE_TOO_LARGE true])
  else if isImported modelStatus
          && sameString (fileName modelStatus) (name file)
          && sameNumber (fileSize modelStatus) (size (content file)) then
    (None, [mkToast "Model already imported"
                    "This model file has already been imported and verified. No action needed."
                    false])
  else (Some file, []).

(** [modelReady] of App.tsx: what decides between the import screen and
    the main application. *)
Definition modelReady (modelStatus : ModelStatus) : bool :=
  isImported modelStatus
  && negb match verificationStatus modelStatus with
          | Some failed => true
          | _ => false
          end.

(** The duplicate check of [handleFileSelect]. *)
Definition alreadyImported (s : ModelStatus) (file : File) : Prop :=
  isImported s = true /\
  fileName s = Some (name file) /\
  fileSize s = Some (size (content file)).

Definition alreadyImportedToast : Toast :=
  mkToast "Model already imported"
          "This model file has already been imported and verified. No action needed."
          false.

(** The place of a character in a list, counted from [n]. *)
Fixpoint positionFrom (n : N) (c : ascii) (l : list ascii) : option N :=
  match l with
  | [] => None
  | x :: l' => if Ascii.eqb c x then Some n else positionFrom (N.succ n) c l'
  end.

(** The value of a lowercase hex digit: the inverse of [hexDigit]. *)
Definition unhexDigit (c : ascii) : option N :=
  positionFrom 0 c (list_ascii_of_string "0123456789abcdef").

(** Reads back what [hexEncode] writes: two digits a byte. *)
Fixpoint hexDecode (s : string) : option (list byte) :=
  match s with
  | EmptyString => Some []
  | String hi (String lo rest) =>
      match unhexDigit hi, unhexDigit lo, hexDecode rest with
      | Some h, Some l, Some bs =>
          match Byte.of_N (16 * h + l) with
          | Some b => Some (b :: bs)
          | None => None
          end
      | _, _, _ => None
      end
  | String _ EmptyString => None
  end.

(** The 32 bytes that [testDigest] writes in hex. *)
Definition testDigestBytes : list byte :=
  match hexDecode testDigest with
  | Some bs => bs
  | None => []
  end.

(** As [quietPlatform], but [crypto.subtle.digest] is a double that
    answers every input with the digest registered in
    [KNOWN_MODEL_HASHES].  (That digest is the SHA-256 of the empty input,
    and step 1 turns away every file below 100 MiB: with SHA-256 itself no
    file that is known to have a registered digest gets as far as
    step 5.) *)
Definition registeredDigestPlatform : Platform :=
  {| storageManager := storageManager quietPlatform;
     dbFault := fun _ => None;
     digestFault := None;
     SHA256 := fun _ => testDigestBytes |}.

(** Two platforms that differ at most in what
    [navigator.storage.estimate()] answers. *)
Definition sameButQuota (P1 P2 : Platform) : Prop :=
  (forall c, dbFault P1 c = dbFault P2 c) /\
  digestFault P1 = digestFault P2 /\
  (forall buffer, SHA256 P1 buffer = SHA256 P2 buffer).

(** Two answers of the quota check that step 2 does not tell apart: the
    same answer, or two answers that both let the import pass (the
    figures are read only for the message of a refusal). *)
Definition sameVerdict (q1 q2 : QuotaCheck) : Prop :=
  q1 = q2 \/ (hasQuota q1 = true /\ hasQuota q2 = true).

(** As [quietPlatform], after 100 MiB of chunks were stored: the
    estimate counts them. *)
Definition quietPlatformLater : Platform :=
  {| storageManager :=
       EstimateResolves {| usage := Some (100 * 1024 * 1024)%Z;
                           quota := Some (50 * GiB)%Z |};
     dbFault := fun _ => None;
     digestFault := None;
     SHA256 := SHA256 quietPlatform |}.

(** The two ways a file reaches [handleFileSelect] (the drag highlight
    that [handleDrop] also clears is left out).  Both are given the
    selection so far, which stays when the event carries no file.

    [handleFileInputChange] is made anew at every render, so that it
    calls the [handleFileSelect] of the latest render, with the
    [modelStatus] the store held then: [rendered]. *)
Definition handleFileInputChange (rendered : ModelStatus)
  (selectedFile : option File) (files : list File)
  : option File * list Toast :=
  match files with
  | file :: _ => handleFileSelect rendered file
  | [] => (selectedFile, [])
  end.

(** [handleDrop] is a [useCallback] with the dependencies [[]]: the
    component keeps the function of its first render, which calls the
    [handleFileSelect] of that render, with the [modelStatus] the
    component was mounted with: [mounted]. *)
Definition handleDrop (mounted : ModelStatus)
  (selectedFile : option File) (files : list File)
  : option File * list Toast :=
  match files with
  | file :: _ => handleFileSelect mounted file
  | [] => (selectedFile, [])
  end.

(** ** [importModel], one [await] at a time *)

(** An [async] function runs without interruption from one [await] to
    the next; while it is suspended there, other calls can run.  Nothing
    in [importModel] keeps a second call from being made while one is
    suspended.

    Where a call of [importModel] is suspended: the [await] it has
    reached, with its local variables. *)
Inductive Suspended : Type :=
| AwaitQuota (file : File)               (* [await checkStorageQuota()] *)
| AwaitClear (file : File)               (* [await modelStorage.clearChunks()] *)
| AwaitPut (file : File) (offset : N)    (* [await modelStorage.storeModelChunk(chunk, offset)] *)
| AwaitHash (file : File).               (* [await modelStorage.calculateSHA256FromChunks()] *)

Inductive Session : Type :=
| Pending (at_ : Suspended)
| Settled (r : Completion unit).

Section Stepwise.

Variable P : Platform.

Local Open Scope js_scope.

(** The [catch] block, around a stretch of the [try] block. *)
Definition guarded (m : M Session) : M Session :=
  tryCatch m
    (fun error =>
       setModelStatus (failureStatus error) ;;
       ret (Settled (Throw error))).

(** The test of the [while] loop, and the [await] that follows it. *)
Definition loopTest (file : File) (offset : N) : Session :=
  if offset <? size (content file) then Pending (AwaitPut file offset)
  else Pending (AwaitHash file).

(** From the call to the first [await]. *)
Definition begin (file : File) : M Session :=
  guarded
    (setModelStatus startUpdate ;;
     if negb (endsWith (name file) MODEL_VALIDATION.EXPECTED_EXTENSION) then
       throw (ErrorObject UI_MESSAGES.INVALID_FILE_TYPE)
     else if size (content file) <? MODEL_VALIDATION.MIN_SIZE then
       throw (ErrorObject FILE_TOO_SMALL)
     else if MODEL_VALIDATION.MAX_SIZE <? size (content file) then
       throw (ErrorObject UI_MESSAGES.FILE_TOO_LARGE)
     else ret (Pending (AwaitQuota file))).

(** The awaited operation takes effect, and the call runs on to its next
    [await] (where it makes its next request), or to its end. *)
Definition resume (at_ : Suspended) : M Session :=
  guarded
    match at_ with
    | AwaitQuota file =>
        q <- checkStorageQuota P ;;
        if negb (hasQuota q) then
          let availableGB := ((qc_quota q - qc_usage q) / GiB)%Z in
          throw (ErrorObject
                   (UI_MESSAGES.STORAGE_QUOTA_EXCEEDED ++ " (Available: "
                    ++ numberToString availableGB ++ "GB)"))
        else ret (Pending (AwaitClear file))
    | AwaitClear file =>
        clearChunks P ;;
        ret (loopTest file 0)
    | AwaitPut file offset =>
        let chunk := slice (content file) offset (offset + CHUNK_SIZE) in
        storeModelChunk P chunk offset ;;
        let offset := offset + size chunk in
        setModelStatus (progressUpdate offset (size (content file))) ;;
        ret (loopTest file offset)
    | AwaitHash file =>
        sha256 <- calculateSHA256FromChunks P ;;
        setModelStatus hashedUpdate ;;
        setModelStatus (finalStatus file sha256) ;;
        ret (Settled (Return tt))
    end.

(** What happens next: a new call of [importModel], or the call made
    [i]-th (counted from 0) goes on. *)
Inductive Action : Type :=
| Call (file : File)
| Continue (i : nat).

Fixpoint updateAt {A : Type} (i : nat) (x : A) (l : list A) : list A :=
  match l, i with
  | [], _ => []
  | _ :: l', O => x :: l'
  | y :: l', S i' => y :: updateAt i' x l'
  end.

(** [calls]: the calls of [importModel] so far, in the order they were
    made. *)
Definition act (a : Action) (calls : list Session) : M (list Session) :=
  match a with
  | Call file =>
      s <- begin file ;;
      ret (calls ++ [s])%list
  | Continue i =>
      match nth_error calls i with
      | Some (Pending at_) =>
          s <- resume at_ ;;
          ret (updateAt i s calls)
      | _ => ret calls
      end
  end.

Fixpoint schedule (actions : list Action) (calls : list Session)
  : M (list Session) :=
  match actions with
  | [] => ret calls
  | a :: actions' =>
      calls' <- act a calls ;;
      schedule actions' calls'
  end.

End Stepwise.

(** A blob of [n] bytes 1. *)
Definition ones (n : N) : Blob := {| size := n; byteAt := fun _ => x01 |}.

Definition other100 : File := mkFile "other.gguf" (ones (100 * MiB)).

(** A second import is started while the first awaits the write of its
    first chunk.  Every request reaches the database in the order in
    which it was made: the first chunk of [model100], the [clear] of the
    second call, the second chunk of [model100], the first chunk of
    [other100]. *)
Definition overlappingImports : list Action :=
  [ Call model100; Continue 0; Continue 0;
    Call other100; Continue 1;
    Continue 0; Continue 1; Continue 0; Continue 1 ]%nat.

(** The [catch] block of [importModel]. *)
Definition catchBlock : Thrown -> M unit :=
  fun error =>
    bind (setModelStatus (failureStatus error)) (fun _ => throw error).

(** Steps 4 to 6. *)
Definition hashAndFinish (P : Platform) (file : File) : M unit :=
  bind (calculateSHA256FromChunks P) (fun sha256 =>
  bind (setModelStatus hashedUpdate) (fun _ =>
  setModelStatus (finalStatus file sha256))).

(** The loop from [offset] on, and what follows it. *)
Definition fromLoop (P : Platform) (fuel : nat) (file : File) (offset : N)
  : M unit :=
  tryCatch (bind (writeLoop P fuel file offset) (fun _ => hashAndFinish P file))
           catchBlock.

(** The result of a schedule in which one call was made, and has ended
    as [r] says. *)
Definition settled (r : Completion unit * World * list Event)
  : Completion (list Session) * World * list Event :=
  let '(c, w, t) := r in (Return [Settled c], w, t).

(* ------------------------------------------------------------------ *)
(** * lib/ollama.ts and stores/ollama-store.ts *)

Module Ollama.

Record OllamaConfig : Type := mkConfig {
  cfg_serverUrl : string;
  cfg_modelName : string
}.

Record Suggestion : Type := mkSuggestion {
  text : string;
  confidence : string;
  reasoning : string
}.

(** [interface OllamaStatus] *)
Record OllamaStatus : Type := mkStatus {
  isOllamaMode : bool;
  serverUrl : string;
  modelName : string;
  isConnected : bool;
  isModelAvailable : bool;
  lastError : option string;
  lastTestTime : option N
}.

(** The zustand state of [useOllamaStore]. *)
Record Store : Type := mkStore {
  ollamaStatus : OllamaStatus;
  ollamaAPI : option OllamaConfig
}.

(** The requests the code sends with [fetch]. *)
Inductive Request : Type :=
| GetTags (url : string)
    (* [fetch(url, { method: 'GET' })] *)
| PostGenerate (url model prompt : string).
    (* [fetch(url, { method: 'POST', body: { model, prompt, stream: false } })] *)

(** What the code reads of a response. *)
Record Response : Type := mkResponse {
  ok : bool;
  status : Z;
  statusText : string;
  bodyText : Thrown + string;         (* [await response.text()] *)
  jsonRejects : option Thrown         (* [await response.json()] rejects *)
}.

Inductive Fetched : Type :=
| FetchRejects (e : Thrown)
| FetchResolves (r : Response).

(** What the store asks of the outside: the network, the clock, and
    [OllamaAPI.generateSuggestions], which is not modelled (it parses
    JSON): the platform says what a call of it returns or throws. *)
Record Network : Type := mkNetwork {
  fetch : Request -> Fetched;
  generateSuggestions : OllamaConfig -> string -> Thrown + list Suggestion;
  now : N                              (* [Date.now()] *)
}.

Inductive Call : Type :=
| Fetch (r : Request)
| Generate (config : OllamaConfig) (userInput : string).

Definition initialStatus : OllamaStatus :=
  {| isOllamaMode := false;
     serverUrl := "http://localhost:11434";
     modelName := "gemma3n:latest";
     isConnected := false;
     isModelAvailable := false;
     lastError := None;
     lastTestTime := None |}.

Definition initialStore : Store :=
  {| ollamaStatus := initialStatus; ollamaAPI := None |}.

(** [error instanceof Error ? error.message : fallback] *)
Definition messageOr (fallback : string) (e : Thrown) : string :=
  match e with
  | ErrorObject message => message
  | OtherValue => fallback
  end.

(** [s.includes(sub)] *)
Definition includes (s sub : string) : bool :=
  match String.index 0 sub s with
  | Some _ => true
  | None => false
  end.

Section Api.

Variable net : Network.

(** [OllamaAPI.testConnection()]: the result and the requests sent. *)
Definition api_testConnection (config : OllamaConfig)
  : (bool * option string) * list Call :=
  let request := GetTags (cfg_serverUrl config ++ "/api/tags") in
  (match fetch net request with
   | FetchRejects e => (false, Some (messageOr "Connection failed" e))
   | FetchResolves response =>
       if negb (ok response) then
         (false, Some ("HTTP " ++ numberToString (status response) ++ ": "
                       ++ statusText response))
       else
         match jsonRejects response with
         | Some e => (false, Some (messageOr "Connection failed" e))
         | None => (true, None)
         end
   end, [Fetch request]).

(** [OllamaAPI.testModel()] *)
Definition api_testModel (config : OllamaConfig)
  : (bool * option string) * list Call :=
  let request :=
    PostGenerate (cfg_serverUrl config ++ "/api/generate")
                 (cfg_modelName config) "test" in
  (match fetch net request with
   | FetchRejects e => (false, Some (messageOr "Model test failed" e))
   | FetchResolves response =>
       if negb (ok response) then
         match bodyText response with
         | inl e => (false, Some (messageOr "Model test failed" e))
         | inr errorText =>
             (false, Some ("Model test failed: "
                           ++ numberToString (status response) ++ " "
                           ++ errorText))
         end
       else (true, None)
   end, [Fetch request]).

(** ** The store *)

Definition setOllamaMode (enabled : bool) (state : Store) : Store :=
  let s := ollamaStatus state in
  {| ollamaStatus :=
       {| isOllamaMode := enabled;
          serverUrl := serverUrl s;
          modelName := modelName s;
          isConnected := isConnected s;
          isModelAvailable := isModelAvailable s;
          lastError := None;
          lastTestTime := lastTestTime s |};
     ollamaAPI := ollamaAPI state |}.

Definition updateConfig (newServerUrl newModelName : string) (state : Store)
  : Store :=
  let s := ollamaStatus state in
  {| ollamaStatus :=
       {| isOllamaMode := isOllamaMode s;
          serverUrl := newServerUrl;
          modelName := newModelName;
          isConnected := false;
          isModelAvailable := false;
          lastError := None;
          lastTestTime := lastTestTime s |};
     ollamaAPI := Some (mkConfig newServerUrl newModelName) |}.

Definition testConnection (state : Store)
  : (bool * option string) * Store * list Call :=
  let s := ollamaStatus state in
  let '(result, calls) :=
    api_testConnection (mkConfig (serverUrl s) (modelName s)) in
  (result,
   {| ollamaStatus :=
        {| isOllamaMode := isOllamaMode s;
           serverUrl := serverUrl s;
           modelName := modelName s;
           isConnected := fst result;
           isModelAvailable := isModelAvailable s;
           lastError := snd result;
           lastTestTime := Some (now net) |};
      ollamaAPI := ollamaAPI state |},
   calls).

Definition testModel (state : Store)
  : (bool * option string) * Store * list Call :=
  let s := ollamaStatus state in
  let '(result, calls) :=
    api_testModel (mkConfig (serverUrl s) (modelName s)) in
  (result,
   {| ollamaStatus :=
        {| isOllamaMode := isOllamaMode s;
           serverUrl := serverUrl s;
           modelName := modelName s;
           isConnected := isConnected s;
           isModelAvailable := fst result;
           lastError := snd result;
           lastTestTime := Some (now net) |};
      ollamaAPI := ollamaAPI state |},
   calls).

Definition withLastError (e : option string) (state : Store) : Store :=
  let s := ollamaStatus state in
  {| ollamaStatus :=
       {| isOllamaMode := isOllamaMode s;
          serverUrl := serverUrl s;
          modelName := modelName s;
          isConnected := isConnected s;
          isModelAvailable := isModelAvailable s;
          lastError := e;
          lastTestTime := lastTestTime s |};
     ollamaAPI := ollamaAPI state |}.

Definition getSuggestions (userInput : string) (state : Store)
  : (Thrown + list Suggestion) * Store * list Call :=
  let s := ollamaStatus state in
  if negb (isOllamaMode s) then
    (inl (ErrorObject "Ollama mode not enabled"), state, [])
  else if negb (isConnected s) then
    (inl (ErrorObject
            "Ollama server not connected. Please test connection first."),
     state, [])
  else if negb (isModelAvailable s) then
    (inl (ErrorObject "Ollama model not available. Please test model first."),
     state, [])
  else
    let config := mkConfig (serverUrl s) (modelName s) in
    match generateSuggestions net config userInput with
    | inr suggestions =>
        (inr suggestions, withLastError None state,
         [Generate config userInput])
    | inl error =>
        let errorMessage := messageOr "Unknown error" error in
        (inl (if includes errorMessage "Ollama API error" then
                ErrorObject
                  "Ollama server error. Please check if Ollama is running."
              else if includes errorMessage "parsing failed" then
                ErrorObject
                  "Received invalid response from Ollama. Please try again."
              else error),
         withLastError (Some errorMessage) state,
         [Generate config userInput])
    end.

Definition resetOllamaMode (state : Store) : Store := initialStore.

End Api.

(** The error [getSuggestions] refuses with, by the first flag that is
    off. *)
Definition refusal (s : OllamaStatus) : string :=
  if negb (isOllamaMode s) then "Ollama mode not enabled"
  else if negb (isConnected s) then
    "Ollama server not connected. Please test connection first."
  else "Ollama model not available. Please test model first.".

Definition ready (s : OllamaStatus) : bool :=
  isOllamaMode s && isConnected s && isModelAvailable s.

Definition alwaysFine : Network :=
  {| fetch := fun _ =>
       FetchResolves {| ok := true; status := 200; statusText := "OK";
                        bodyText := inr "{}"; jsonRejects := None |};
     generateSuggestions := fun _ _ => inr [];
     now := 0 |}.

Definition serverDown : Network :=
  {| fetch := fun _ => FetchRejects (ErrorObject "Failed to fetch");
     generateSuggestions := fun _ _ =>
       inl (ErrorObject "Ollama API error: 500 model crashed");
     now := 0 |}.

Definition readyStore : Store :=
  {| ollamaStatus :=
       {| isOllamaMode := true;
          serverUrl := "http://localhost:11434";
          modelName := "gemma3n:latest";
          isConnected := true;
          isModelAvailable := true;
          lastError := None;
          lastTestTime := Some 0 |};
     ollamaAPI := None |}.

End Ollama.

(* ------------------------------------------------------------------ *)
(** * The loop of step 3 *)

Lemma CHUNK_SIZE_pos : 0 < CHUNK_SIZE.
Proof. reflexivity. Qed.

Lemma slice_window_size (b : Blob) (o : N) :
  o < size b ->
  size (slice b o (o + CHUNK_SIZE)) = N.min CHUNK_SIZE (size b - o).
Proof.
  intros Ho. unfold slice. cbn [size]. pose proof CHUNK_SIZE_pos. lia.
Qed.

Lemma slice_window_bounds (b : Blob) (o : N) :
  o < size b ->
  0 < size (slice b o (o + CHUNK_SIZE)) <= CHUNK_SIZE.
Proof.
  intros Ho. rewrite slice_window_size by assumption.
  pose proof CHUNK_SIZE_pos. lia.
Qed.

Section Runs.

Variable P : Platform.

Lemma db_run (c : DbCall) (w : World) :
  db P c w =
  match dbFault P c with
  | Some e => (Throw e, w, [Db c])
  | None => (Return tt, w, [Db c])
  end.
Proof.
  unfold db, bind, emit. destruct (dbFault P c); reflexivity.
Qed.

Lemma storeModelChunk_run (chunk : Blob) (o : N) (w : World) :
  storeModelChunk P chunk o w =
  match dbFault P (PutChunk chunk o) with
  | Some e => (Throw e, w, [Db (PutChunk chunk o)])
  | None =>
      (Return tt,
       {| modelStatus := modelStatus w;
          modelStore := modelStore w;
          chunkStore := idbPut o chunk (chunkStore w) |},
       [Db (PutChunk chunk o)])
  end.
Proof.
  unfold storeModelChunk, bind. rewrite db_run.
  destruct (dbFault P (PutChunk chunk o)); reflexivity.
Qed.

Lemma writeLoop_exit (fuel : nat) (file : File) (o : N) (w : World) :
  size (content file) <= o ->
  writeLoop P fuel file o w = (Return tt, w, []).
Proof.
  intros Ho. destruct fuel; cbn [writeLoop];
    (destruct (N.ltb_spec o (size (content file))); [lia | reflexivity]).
Qed.

Lemma writeLoop_step (fuel : nat) (file : File) (o : N) (w : World) :
  o < size (content file) ->
  writeLoop P (S fuel) file o w =
  let chunk := slice (content file) o (o + CHUNK_SIZE) in
  match dbFault P (PutChunk chunk o) with
  | Some e => (Throw e, w, [Db (PutChunk chunk o)])
  | None =>
      let '(r, w', t) :=
        writeLoop P fuel file (o + size chunk) (afterIteration file o w) in
      (r, w',
       Db (PutChunk chunk o)
       :: StatusMerged (progressUpdate (o + size chunk) (size (content file)))
       :: t)
  end.
Proof.
  intros Ho. cbn [writeLoop].
  destruct (N.ltb_spec o (size (content file))); [| lia].
  cbv zeta. unfold bind at 1. rewrite storeModelChunk_run.
  destruct (dbFault P _); [reflexivity |].
  unfold bind, setModelStatus, emit, modify. cbn.
  fold (progressUpdate (o + size (slice (content file) o (o + CHUNK_SIZE))) (size (content file))).
  unfold afterIteration. cbv zeta.
  destruct (writeLoop P fuel file _ _) as [[r w'] t]. reflexivity.
Qed.

(** With [n] iterations left for at most [n] windows, the function
    computes a run of the loop. *)
Lemma writeLoop_LoopRun (fuel : nat) :
  forall (file : File) (o : N) (w : World),
    size (content file) - o <= N.of_nat fuel * CHUNK_SIZE ->
    exists r o' w' t,
      writeLoop P fuel file o w = (r, w', t) /\
      LoopRun P file o w r o' w' t.
Proof.
  induction fuel as [| fuel IH]; intros file o w Hfuel.
  - exists (Return tt), o, w, []. 
    assert (size (content file) <= o) by lia.
    split; [apply writeLoop_exit; assumption | constructor; assumption].
  - destruct (N.lt_ge_cases o (size (content file))) as [Hlt | Hge].
    + rewrite writeLoop_step by assumption. cbv zeta.
      destruct (dbFault P _) eqn:Hf.
      * do 4 eexists. split; [reflexivity |]. apply LoopThrow; assumption.
      * pose proof (slice_window_size (content file) o Hlt) as Hs.
        destruct (IH file (o + size (slice (content file) o (o + CHUNK_SIZE)))
                    (afterIteration file o w)) as (r & o' & w' & t & Hrun & HL).
        { rewrite Hs. pose proof CHUNK_SIZE_pos. lia. }
        rewrite Hrun. do 4 eexists. split; [reflexivity |].
        apply LoopIterate; eassumption.
    + exists (Return tt), o, w, [].
      split; [apply writeLoop_exit; assumption | constructor; assumption].
Qed.

Lemma loopFuel_enough (file : File) :
  size (content file) - 0 <= N.of_nat (loopFuel file) * CHUNK_SIZE.
Proof.
  unfold loopFuel. pose proof CHUNK_SIZE_pos as Hc.
  rewrite Nat2N.inj_succ, N2Nat.id.
  pose proof (N.div_mod' (size (content file)) CHUNK_SIZE).
  pose proof (N.mod_lt (size (content file)) CHUNK_SIZE). lia.
Qed.

End Runs.

Lemma LoopRun_shape (P : Platform) (file : File) o w r o' w' t :
  LoopRun P file o w r o' w' t ->
  exists rows,
    Contiguous file o rows o' /\
    w' = afterIterations file rows w /\
    ((r = Return tt /\ size (content file) <= o' /\
      t = iterationEvents file rows) \/
     (exists e, r = Throw e /\ o' < size (content file) /\
        dbFault P (PutChunk (slice (content file) o' (o' + CHUNK_SIZE)) o')
          = Some e /\
        t = (iterationEvents file rows
             ++ [Db (PutChunk (slice (content file) o' (o' + CHUNK_SIZE)) o')])%list)).
Proof.
  induction 1 as [o w Hge | o w e Hlt Hf | o w r o' w' t Hlt Hf Hrun IH].
  - exists []. split; [constructor |]. split; [reflexivity |]. left. auto.
  - exists []. split; [constructor |]. split; [reflexivity |].
    right. exists e. auto.
  - destruct IH as (rows & Hc & Hw & Ht).
    exists ((o, slice (content file) o (o + CHUNK_SIZE)) :: rows).
    split.
    { constructor; auto using slice_window_bounds. }
    split; [exact Hw |].
    destruct Ht as [(-> & Hge & ->) | (e & -> & Hlt' & Hf' & ->)].
    + left. auto.
    + right. exists e. auto.
Qed.

Lemma Contiguous_bounds (file : File) o rows stop :
  Contiguous file o rows stop ->
  o <= stop /\ (o <= size (content file) -> stop <= size (content file)) /\
  totalSize rows = stop - o.
Proof.
  induction 1 as [o | o chunk rows stop Hlt Hc Hb _ IH].
  - cbn. lia.
  - cbn [totalSize fold_right snd]. fold (totalSize rows).
    subst chunk. rewrite slice_window_size in * by assumption. lia.
Qed.

Lemma progressReports_app (t1 t2 : list Event) :
  progressReports (t1 ++ t2) = (progressReports t1 ++ progressReports t2)%list.
Proof.
  induction t1 as [| e t1 IH]; [reflexivity |].
  destruct e as [c | u | s]; cbn; auto.
  destruct (u_importProgress u); cbn; congruence.
Qed.

Lemma putCalls_app (t1 t2 : list Event) :
  putCalls (t1 ++ t2) = (putCalls t1 ++ putCalls t2)%list.
Proof.
  induction t1 as [| e t1 IH]; [reflexivity |].
  destruct e as [[] | u | s]; cbn; congruence.
Qed.

Lemma progressReports_iterationEvents (file : File) (rows : list (N * Blob)) :
  progressReports (iterationEvents file rows) =
  map (fun row => chunkingProgress (fst row + size (snd row))
                                   (size (content file))) rows.
Proof.
  induction rows as [| row rows IH]; [reflexivity |].
  cbn. f_equal. exact IH.
Qed.

Lemma putCalls_iterationEvents (file : File) (rows : list (N * Blob)) :
  putCalls (iterationEvents file rows) = rows.
Proof.
  induction rows as [| [o c] rows IH]; [reflexivity |].
  cbn. f_equal. exact IH.
Qed.

(** ** Arithmetic of [chunkingProgress] *)

Lemma chunkingProgress_mono (o o' total : N) :
  o <= o' ->
  (chunkingProgress o total <= chunkingProgress o' total)%Q.
Proof.
  intros Hle. unfold chunkingProgress, Qdiv.
  apply Qmult_le_compat_r; [| discriminate].
  apply Qmult_le_compat_r.
  - rewrite <- Zle_Qle. lia.
  - apply Qinv_le_0_compat. change 0%Q with (inject_Z 0).
    rewrite <- Zle_Qle. lia.
Qed.

Lemma chunkingProgress_zero (total : N) :
  (chunkingProgress 0 total == 0)%Q.
Proof.
  unfold chunkingProgress, Qdiv. cbn [Z.of_N].
  change (inject_Z 0) with 0%Q. ring.
Qed.

Lemma chunkingProgress_full (total : N) :
  0 < total ->
  (chunkingProgress total total == 80)%Q.
Proof.
  intros Ht. unfold chunkingProgress.
  assert (H : ~ (inject_Z (Z.of_N total) == 0)%Q).
  { change 0%Q with (inject_Z 0). rewrite inject_Z_injective. lia. }
  field. exact H.
Qed.

(** On doubles the two values the properties name come out exactly. *)
Lemma chunkingProgressDouble_half :
  chunkingProgressDouble (16 * MiB) (32 * MiB) = numberOfN 40.
Proof. reflexivity. Qed.

Lemma chunkingProgressDouble_full_100MiB :
  chunkingProgressDouble (100 * MiB) (100 * MiB) = numberOfN 80.
Proof. reflexivity. Qed.

Lemma chunkingProgress_range (o total : N) :
  o <= total -> 0 < total ->
  (0 <= chunkingProgress o total <= 80)%Q.
Proof.
  intros Ho Ht. split.
  - rewrite <- (chunkingProgress_zero total).
    apply chunkingProgress_mono. lia.
  - rewrite <- (chunkingProgress_full total Ht).
    apply chunkingProgress_mono. exact Ho.
Qed.

(** ** Non-decreasing lists *)

Lemma NonDecreasing_tail (p : Q) (l : list Q) :
  NonDecreasing (p :: l) -> NonDecreasing l.
Proof. inversion 1; subst; [constructor | assumption]. Qed.

Lemma NonDecreasing_cons (p : Q) (l : list Q) :
  NonDecreasing l -> (forall q, In q l -> (p <= q)%Q) ->
  NonDecreasing (p :: l).
Proof.
  destruct l as [| q l]; intros Hl Hp; constructor.
  - apply Hp. left. reflexivity.
  - exact Hl.
Qed.

Lemma NonDecreasing_head_le (p : Q) (l : list Q) :
  NonDecreasing (p :: l) -> forall q, In q l -> (p <= q)%Q.
Proof.
  revert p. induction l as [| a l IH]; intros p Hnd q Hin; [contradiction |].
  inversion Hnd as [| | p' q' l' Hpa Hal]; subst.
  destruct Hin as [-> | Hin]; [exact Hpa |].
  apply Qle_trans with a; [exact Hpa |]. apply IH; assumption.
Qed.

Lemma NonDecreasing_app (l1 l2 : list Q) :
  NonDecreasing l1 -> NonDecreasing l2 ->
  (forall a b, In a l1 -> In b l2 -> (a <= b)%Q) ->
  NonDecreasing (l1 ++ l2).
Proof.
  induction l1 as [| p l1 IH]; intros H1 H2 Hle; [exact H2 |].
  cbn. apply NonDecreasing_cons.
  - apply IH; [eapply NonDecreasing_tail; eassumption | exact H2 |].
    intros a b Ha Hb. apply Hle; [right |]; assumption.
  - intros q Hq. apply in_app_or in Hq. destruct Hq as [Hq | Hq].
    + eapply NonDecreasing_head_le; eassumption.
    + apply Hle; [left; reflexivity | exact Hq].
Qed.

(** The reports of the iterations that wrote contiguous rows, as a list. *)
Lemma Contiguous_progress (file : File) o rows stop :
  Contiguous file o rows stop ->
  let reports :=
    map (fun row => chunkingProgress (fst row + size (snd row))
                                     (size (content file))) rows in
  NonDecreasing (chunkingProgress o (size (content file)) :: reports) /\
  (forall p, In p reports -> (0 <= p <= 80)%Q).
Proof.
  induction 1 as [o | o chunk rows stop Hlt Hc Hb Hrest IH]; cbn zeta.
  - split; [constructor | intros p []].
  - cbn [map fst snd]. cbv zeta in IH. destruct IH as [IHnd IHr].
    pose proof (Contiguous_bounds _ _ _ _ Hrest) as (Hle & Hstop & _).
    subst chunk. rewrite slice_window_size in * by assumption.
    split.
    + constructor; [| exact IHnd]. apply chunkingProgress_mono. lia.
    + intros p [<- | Hin]; [| auto].
      apply chunkingProgress_range; lia.
Qed.

(** ** The object store *)

Lemma idbPut_last (k : N) (v : Blob) (rows : list (N * Blob)) :
  Forall (fun row => fst row < k) rows ->
  idbPut k v rows = (rows ++ [(k, v)])%list.
Proof.
  induction 1 as [| [k' v'] rows Hk _ IH]; [reflexivity |].
  cbn in *. destruct (N.ltb_spec k k'); [lia |].
  destruct (N.eqb_spec k k'); [lia |]. rewrite IH. reflexivity.
Qed.

(** What the iterations leave alone, and what they change. *)
Lemma afterIterations_frame (file : File) (rows : list (N * Blob)) :
  forall w,
    let w' := afterIterations file rows w in
    modelStore w' = modelStore w /\
    isImported (modelStatus w') = isImported (modelStatus w) /\
    isLoaded (modelStatus w') = isLoaded (modelStatus w) /\
    fileName (modelStatus w') = fileName (modelStatus w) /\
    fileSize (modelStatus w') = fileSize (modelStatus w) /\
    sha256 (modelStatus w') = sha256 (modelStatus w) /\
    error (modelStatus w') = error (modelStatus w) /\
    isVerified (modelStatus w') = isVerified (modelStatus w) /\
    verificationStatus (modelStatus w') = verificationStatus (modelStatus w).
Proof.
  induction rows as [| row rows IH]; intros w; cbn zeta.
  - cbn. repeat split.
  - cbn [afterIterations fold_left].
    specialize (IH (afterIteration file (fst row) w)). cbv zeta in IH.
    exact IH.
Qed.

Lemma afterIterations_chunkStore (file : File) o rows stop :
  Contiguous file o rows stop ->
  forall w,
    Forall (fun row => fst row < o) (chunkStore w) ->
    chunkStore (afterIterations file rows w) = (chunkStore w ++ rows)%list.
Proof.
  induction 1 as [o | o chunk rows stop Hlt Hc Hb Hrest IH]; intros w Hw.
  - cbn. rewrite app_nil_r. reflexivity.
  - cbn [afterIterations fold_left fst].
    change (fold_left _ rows ?w0) with (afterIterations file rows w0).
    rewrite IH.
    + cbn [afterIteration chunkStore]. rewrite idbPut_last by assumption.
      rewrite <- app_assoc. subst chunk. reflexivity.
    + cbn [afterIteration chunkStore]. rewrite idbPut_last by assumption.
      apply Forall_app. split.
      * eapply Forall_impl; [| exact Hw]. cbn. intros. lia.
      * constructor; [cbn; lia | constructor].
Qed.

(** ** Bytes of blobs *)

Lemma map_seq_from {A : Type} (len : nat) :
  forall (f : nat -> A) (a : nat),
    map f (seq a len) = map (fun i => f (a + i)%nat) (seq 0 len).
Proof.
  induction len as [| len IH]; intros f a; [reflexivity |].
  cbn [seq map]. rewrite Nat.add_0_r. f_equal.
  rewrite (IH f (S a)), (IH (fun i => f (a + i)%nat) 1%nat).
  apply map_ext. intros i. f_equal. lia.
Qed.

Lemma map_nth_seq {A : Type} (d : A) (l : list A) :
  map (fun i => nth i l d) (seq 0 (List.length l)) = l.
Proof.
  induction l as [| x l IH]; [reflexivity |].
  cbn [List.length seq map nth]. f_equal.
  rewrite map_seq_from. exact IH.
Qed.

Lemma arrayBuffer_appendBlob (a b : Blob) :
  arrayBuffer (appendBlob a b) = (arrayBuffer a ++ arrayBuffer b)%list.
Proof.
  unfold arrayBuffer, appendBlob. cbn [size byteAt].
  rewrite N2Nat.inj_add, seq_app, map_app. f_equal.
  - apply map_ext_in. intros i Hi. apply in_seq in Hi.
    destruct (N.ltb_spec (N.of_nat i) (size a)); [reflexivity | lia].
  - cbn [Nat.add]. rewrite map_seq_from. apply map_ext. intros i.
    destruct (N.ltb_spec (N.of_nat (N.to_nat (size a) + i)) (size a)); [lia |].
    f_equal. lia.
Qed.

Lemma arrayBuffer_newBlob (parts : list Blob) :
  arrayBuffer (newBlob parts) = List.concat (map arrayBuffer parts).
Proof.
  induction parts as [| b parts IH]; [reflexivity |].
  cbn [newBlob fold_right map List.concat]. fold (newBlob parts).
  rewrite arrayBuffer_appendBlob, IH. reflexivity.
Qed.

Lemma arrayBuffer_blobOfBytes (bs : list byte) :
  arrayBuffer (blobOfBytes bs) = bs.
Proof.
  unfold arrayBuffer, blobOfBytes. cbn [size byteAt].
  rewrite Nat2N.id.
  erewrite map_ext; [apply (map_nth_seq Byte.x00) |].
  intros i. cbn. rewrite Nat2N.id. reflexivity.
Qed.

(* ------------------------------------------------------------------ *)
(** * The import session *)

Section Session.

Variable P : Platform.

Lemma checkStorageQuota_run (w : World) :
  checkStorageQuota P w = (Return (quotaAnswer P), w, []).
Proof.
  unfold checkStorageQuota, tryCatch, bind, getStorageQuota, quotaAnswer.
  destruct (storageManager P) as [| e | est]; reflexivity.
Qed.

Lemma setModelStatus_run (u : StatusUpdate) (w : World) :
  setModelStatus u w = (Return tt, withStatus u w, [StatusMerged u]).
Proof. reflexivity. Qed.

Lemma storeInChunks_run (file : File) (w : World) :
  storeInChunks P file w =
  match dbFault P ClearChunks with
  | Some e => (Throw e, w, [Db ClearChunks])
  | None =>
      let '(r, w', t) := writeLoop P (loopFuel file) file 0 (cleared w) in
      (r, w', Db ClearChunks :: t)
  end.
Proof.
  unfold storeInChunks, clearChunks. unfold bind at 1 2. rewrite db_run.
  destruct (dbFault P ClearChunks); [reflexivity |].
  unfold modify. fold (cleared w).
  destruct (writeLoop P (loopFuel file) file 0 (cleared w)) as [[r w'] t].
  reflexivity.
Qed.

Lemma calculateSHA256FromChunks_run (w : World) :
  calculateSHA256FromChunks P w =
  match dbFault P GetAllChunks with
  | Some e => (Throw e, w, [Db GetAllChunks])
  | None =>
      match digestFault P with
      | Some e => (Throw e, w, [Db GetAllChunks])
      | None => (Return (digestOf P (chunkStore w)), w, [Db GetAllChunks])
      end
  end.
Proof.
  unfold calculateSHA256FromChunks. unfold bind at 1. rewrite db_run.
  destruct (dbFault P GetAllChunks); [reflexivity |].
  unfold bind, getWorld. destruct (digestFault P); reflexivity.
Qed.


Lemma writeLoop_from_zero (file : File) (w : World) :
  exists r o' rows,
    Contiguous file 0 rows o' /\
    ((r = Return tt /\ size (content file) <= o' /\
      writeLoop P (loopFuel file) file 0 w
        = (r, afterIterations file rows w, iterationEvents file rows)) \/
     (exists e, r = Throw e /\ o' < size (content file) /\
        dbFault P (PutChunk (slice (content file) o' (o' + CHUNK_SIZE)) o')
          = Some e /\
        writeLoop P (loopFuel file) file 0 w
          = (r, afterIterations file rows w,
             (iterationEvents file rows
              ++ [Db (PutChunk (slice (content file) o' (o' + CHUNK_SIZE))
                               o')])%list))).
Proof.
  destruct (writeLoop_LoopRun P (loopFuel file) file 0 w (loopFuel_enough file))
    as (r & o' & w' & t & Hrun & HL).
  apply LoopRun_shape in HL. destruct HL as (rows & Hc & -> & Ht).
  exists r, o', rows. split; [exact Hc |].
  destruct Ht as [(-> & Hge & ->) | (e & -> & Hlt & Hf & ->)].
  - left. auto.
  - right. exists e. auto.
Qed.

Lemma endsWith_MIN_MAX (file : File) :
  endsWith (name file) MODEL_VALIDATION.EXPECTED_EXTENSION = true ->
  MODEL_VALIDATION.MIN_SIZE <= size (content file) ->
  size (content file) <= MODEL_VALIDATION.MAX_SIZE ->
  validFile file.
Proof. unfold validFile. auto. Qed.

Ltac run_tail :=
  cbv beta iota zeta
      delta [outcome world events fst snd throw bind ret
             setModelStatus emit modify];
  cbn [app].

(** Every call of [importModel] is one of the runs [ImportRun] lists. *)
Lemma importModel_ImportRun (file : File) (w : World) :
  ImportRun P file w (outcome (importModel P file w))
                     (world (importModel P file w))
                     (events (importModel P file w)).
Proof.
  remember (importModel P file w) as res eqn:Hres.
  unfold importModel, tryCatch, importSteps in Hres.
  unfold bind at 1 in Hres. rewrite setModelStatus_run in Hres.
  fold startUpdate in Hres. set (w0 := withStatus startUpdate w) in *.
  destruct (endsWith (name file) MODEL_VALIDATION.EXPECTED_EXTENSION) eqn:Hext;
    cbn [negb] in Hres.
  2:{ subst res. run_tail. apply (Import_failed P file w Validating _ w0 []).
      constructor. exact Hext. }
  destruct (N.ltb_spec (size (content file)) MODEL_VALIDATION.MIN_SIZE)
    as [Hmin | Hmin].
  { subst res. run_tail. apply (Import_failed P file w Validating _ w0 []).
    apply Fail_too_small; assumption. }
  destruct (N.ltb_spec MODEL_VALIDATION.MAX_SIZE (size (content file)))
    as [Hmax | Hmax].
  { subst res. run_tail. apply (Import_failed P file w Validating _ w0 []).
    apply Fail_too_large; assumption. }
  assert (Hvalid : validFile file) by (apply endsWith_MIN_MAX; assumption).
  unfold bind at 1 in Hres. rewrite checkStorageQuota_run in Hres.
  destruct (hasQuota (quotaAnswer P)) eqn:Hq; cbn [negb] in Hres.
  2:{ subst res. run_tail.
      apply (Import_failed P file w QuotaChecking _ w0 []).
      apply Fail_quota; assumption. }
  unfold bind at 1 in Hres. rewrite storeInChunks_run in Hres.
  destruct (dbFault P ClearChunks) as [e |] eqn:Hclear.
  { subst res. run_tail.
    apply (Import_failed P file w Writing e w0 [Db ClearChunks]).
    apply Fail_clear; assumption. }
  destruct (writeLoop_from_zero file (cleared w0))
    as (r & o' & rows & Hc & [(-> & Hge & Hw) | (e & -> & Hlt & Hf & Hw)]);
    rewrite Hw in Hres; clear Hw.
  2:{ subst res. run_tail.
      apply (Import_failed P file w Writing e _
               (Db ClearChunks :: iterationEvents file rows ++ [_])%list).
      eapply Fail_put; eassumption. }
  assert (o' = size (content file)) as ->.
  { pose proof (Contiguous_bounds _ _ _ _ Hc) as (_ & Hb & _). lia. }
  unfold bind at 1 in Hres. rewrite calculateSHA256FromChunks_run in Hres.
  destruct (dbFault P GetAllChunks) as [e |] eqn:Hget.
  { subst res. run_tail. rewrite ?app_nil_r.
    apply (Import_failed P file w Hashing e _
               (Db ClearChunks :: iterationEvents file rows ++ [_])%list).
    eapply Fail_hash; eauto. }
  destruct (digestFault P) as [e |] eqn:Hdig.
  { subst res. run_tail. rewrite ?app_nil_r.
    apply (Import_failed P file w Hashing e _
               (Db ClearChunks :: iterationEvents file rows ++ [_])%list).
    eapply Fail_hash; eauto. }
  subst res. run_tail. rewrite ?app_nil_r.
  apply (Import_completed P file w rows); assumption.
Qed.

(** In particular the fuel never runs out. *)
Lemma importModel_terminates (file : File) (w : World) :
  outcome (importModel P file w) <> OutOfFuel.
Proof.
  pose proof (importModel_ImportRun file w) as Hrun.
  inversion Hrun; discriminate.
Qed.

End Session.

(* ------------------------------------------------------------------ *)
(** * The properties *)

(** ** The model-metadata table is never written *)

Lemma StageFails_modelStore P file w0 stage e w1 t :
  StageFails P file w0 stage e w1 t -> modelStore w1 = modelStore w0.
Proof.
  destruct 1; try reflexivity;
    apply (afterIterations_frame file rows (cleared w0)).
Qed.

Lemma ImportRun_modelStore P file w r w' t :
  ImportRun P file w r w' t -> modelStore w' = modelStore w.
Proof.
  destruct 1 as [rows Hv Hq Hc Hrows Hg Hd w1 digest | stage e w1 t Hf].
  - cbn [withStatus modelStore]. subst w1.
    apply (afterIterations_frame file rows (cleared (withStatus startUpdate w))).
  - cbn [withStatus modelStore].
    apply StageFails_modelStore in Hf. exact Hf.
Qed.

Lemma importModel_modelStore P file w :
  modelStore (world (importModel P file w)) = modelStore w.
Proof. exact (ImportRun_modelStore _ _ _ _ _ _ (importModel_ImportRun P file w)). Qed.

Lemma verifyModel_run P w :
  verifyModel P w =
  if negb (isImported (modelStatus w)) then (Return false, w, [])
  else
    match dbFault P GetModel with
    | Some _ => (Return false, w, [Db GetModel])
    | None =>
        (Return match modelStore w with
                | Some m =>
                    match sha256 (modelStatus w) with
                    | Some s => String.eqb (sm_sha256 m) s
                    | None => false
                    end
                | None => false
                end, w, [Db GetModel])
    end.
Proof.
  unfold verifyModel, tryCatch, getModel, bind, getWorld, ret.
  destruct (isImported (modelStatus w)); cbn [negb]; [| reflexivity].
  rewrite db_run.
  destruct (dbFault P GetModel); [reflexivity |].
  destruct (modelStore w); reflexivity.
Qed.

Lemma verifyModel_world P w : world (verifyModel P w) = w.
Proof.
  rewrite verifyModel_run.
  destruct (negb _); [reflexivity |].
  destruct (dbFault P GetModel); reflexivity.
Qed.

Lemma resetModel_run P w :
  resetModel P w =
  (Return tt,
   {| modelStatus := resetStatus;
      modelStore := match dbFault P DeleteModel with
                    | Some _ => modelStore w
                    | None => None
                    end;
      chunkStore := chunkStore w |},
   [Db DeleteModel; StatusReplaced resetStatus]).
Proof.
  unfold resetModel, tryCatch, deleteModel, bind, modify, emit, ret.
  rewrite db_run.
  destruct (dbFault P DeleteModel); reflexivity.
Qed.

Lemma Reachable_modelStore w : Reachable w -> modelStore w = None.
Proof.
  induction 1 as [| w u _ IH | P w file _ IH | P w _ IH | P w _ IH | P w _ IH].
  - reflexivity.
  - exact IH.
  - rewrite importModel_modelStore. exact IH.
  - rewrite verifyModel_world. exact IH.
  - rewrite resetModel_run. cbn. destruct (dbFault P DeleteModel); auto.
  - rewrite checkStorageQuota_run. exact IH.
Qed.

Lemma verifyModel_without_row P w :
  modelStore w = None -> outcome (verifyModel P w) = Return false.
Proof.
  intros Hrow. rewrite verifyModel_run, Hrow.
  destruct (negb _); [reflexivity |].
  destruct (dbFault P GetModel); reflexivity.
Qed.

(** C10: after any import that [importModel] completed, started in a
    state the application can reach, [verifyModel] returns [false]: no
    operation of the store writes the [modelStore] table, so [getModel]
    finds no row (or throws) and the digests are never compared. *)
Theorem verifyModel_false_after_import (P P' : Platform) (file : File) (w : World) :
  Reachable w ->
  outcome (importModel P file w) = Return tt ->
  modelStore (world (importModel P file w)) = None /\
  outcome (verifyModel P' (world (importModel P file w))) = Return false.
Proof.
  intros Hreach _.
  assert (Hrow : modelStore (world (importModel P file w)) = None).
  { apply Reachable_modelStore. constructor. exact Hreach. }
  split; [exact Hrow | apply verifyModel_without_row; exact Hrow].
Qed.

Lemma importModel_quiet_completes :
  outcome (importModel quietPlatform model100 initialWorld) = Return tt.
Proof. lazy. reflexivity. Qed.

Lemma verifyModel_false_after_import_witness :
  modelStore (world (importModel quietPlatform model100 initialWorld)) = None /\
  outcome (verifyModel quietPlatform
             (world (importModel quietPlatform model100 initialWorld)))
    = Return false.
Proof.
  apply verifyModel_false_after_import.
  - constructor.
  - exact importModel_quiet_completes.
Defined.

(** ** Validation failures *)

Lemma invalidInput_not_valid (file : File) :
  invalidInput file -> ~ validFile file.
Proof.
  unfold invalidInput, validFile. intros [H | [H | H]] [Hext Hsize];
    [congruence | lia | lia].
Qed.

Lemma StageFails_invalid P file w0 stage e w1 t :
  invalidInput file ->
  StageFails P file w0 stage e w1 t ->
  stage = Validating /\ w1 = w0 /\ t = [] /\
  exists msg, e = ErrorObject msg /\ In msg invalidInputMessages.
Proof.
  intros Hinv Hf. apply invalidInput_not_valid in Hinv.
  destruct Hf; try contradiction;
    (repeat split; eexists; split; [reflexivity | cbn; auto]).
Qed.

(** C6: a file with the wrong extension, or smaller than 100 MiB, or
    larger than 15 GiB, makes [importModel] throw one of the three
    invalid-input errors at once: the run consists of the two status
    updates only, it makes no call on the database (no chunk write, no
    clear, no read), and the chunk store is what it was. *)
Theorem invalid_input_touches_no_chunk (P : Platform) (file : File) (w : World) :
  invalidInput file ->
  let r := importModel P file w in
  (exists msg,
      outcome r = Throw (ErrorObject msg) /\
      In msg invalidInputMessages /\
      events r = [StatusMerged startUpdate;
                  StatusMerged (failureStatus (ErrorObject msg))]) /\
  (forall c, ~ In (Db c) (events r)) /\
  putCalls (events r) = [] /\
  chunkStore (world r) = chunkStore w.
Proof.
  intros Hinv r. subst r.
  pose proof (importModel_ImportRun P file w) as Hrun.
  inversion Hrun as [rows Hv | stage e w1 t Hf Ho Hw Ht].
  - exfalso. eapply invalidInput_not_valid; eassumption.
  - destruct (StageFails_invalid _ _ _ _ _ _ _ Hinv Hf)
      as (_ & -> & -> & msg & -> & Hmsg).
    cbn [app]. repeat split.
    + exists msg. auto.
    + intros c [Hc | [Hc | []]]; discriminate.
Qed.

Lemma invalid_input_touches_no_chunk_witness :
  invalidInput model_txt /\
  putCalls (events (importModel quietPlatform model_txt initialWorld)) = [] /\
  chunkStore (world (importModel quietPlatform model_txt initialWorld)) = [].
Proof.
  assert (H : invalidInput model_txt) by (left; reflexivity).
  split; [exact H |].
  destruct (invalid_input_touches_no_chunk quietPlatform model_txt
              initialWorld H) as (_ & _ & Hputs & Hstore).
  split; [exact Hputs | exact Hstore].
Defined.

(** ** The quota check *)

(** C8: [checkStorageQuota] always returns, changes nothing and makes no
    call on the database.  When [navigator.storage.estimate] is missing
    or rejects, the answer is usage 0, quota 0 and no quota.  In every
    case [hasQuota] says whether quota minus usage exceeds 2 GiB; an
    undefined usage or quota counts as 0. *)
Theorem checkStorageQuota_fails_closed (P : Platform) (w : World) :
  exists q,
    checkStorageQuota P w = (Return q, w, []) /\
    hasQuota q = (qc_quota q - qc_usage q >? 2 * GiB)%Z /\
    match storageManager P with
    | EstimateResolves est =>
        qc_usage q = orZero (usage est) /\ qc_quota q = orZero (quota est)
    | EstimateMissing | EstimateRejects _ =>
        q = {| hasQuota := false; qc_usage := 0; qc_quota := 0 |}
    end.
Proof.
  exists (quotaAnswer P). split; [apply checkStorageQuota_run |].
  unfold quotaAnswer.
  destruct (storageManager P) as [| e | est]; cbn [hasQuota qc_usage qc_quota].
  - split; reflexivity.
  - split; reflexivity.
  - split; [| split; reflexivity].
    destruct (Z.gtb_spec (orZero (quota est)) (orZero (usage est) + 2 * GiB));
      destruct (Z.gtb_spec (orZero (quota est) - orZero (usage est)) (2 * GiB));
      lia.
Qed.

(** ** Reset *)

Lemma resetModel_never_throws P w : outcome (resetModel P w) = Return tt.
Proof. rewrite resetModel_run. reflexivity. Qed.

Lemma resetModel_erases_record P w :
  modelStatus (world (resetModel P w)) = resetStatus.
Proof. rewrite resetModel_run. reflexivity. Qed.

Lemma resetModel_chunkStore P w :
  chunkStore (world (resetModel P w)) = chunkStore w /\
  putCalls (events (resetModel P w)) = [] /\
  ~ In (Db ClearChunks) (events (resetModel P w)).
Proof.
  rewrite resetModel_run. cbn. repeat split.
  intros [H | [H | []]]; discriminate.
Qed.

Lemma resetModel_idempotent P w :
  world (resetModel P (world (resetModel P w))) = world (resetModel P w).
Proof.
  rewrite !resetModel_run. cbn.
  destruct (dbFault P DeleteModel); reflexivity.
Qed.

Lemma resetModel_idempotent_reachable P1 P2 w :
  Reachable w ->
  world (resetModel P2 (world (resetModel P1 w))) = world (resetModel P1 w).
Proof.
  intros Hreach. apply Reachable_modelStore in Hreach.
  rewrite !resetModel_run. cbn. rewrite Hreach.
  destruct (dbFault P1 DeleteModel), (dbFault P2 DeleteModel); reflexivity.
Qed.

(** C3: [resetModel] after a completed import of a 100 MiB file.  The
    reset returns normally, puts the status back to its initial value and
    is idempotent, but it calls [deleteModel] only: the seven chunks the
    import wrote are all still in the chunk store. *)
Theorem resetModel_keeps_chunk_store :
  let imported := world (importModel quietPlatform model100 initialWorld) in
  let r := resetModel quietPlatform imported in
  outcome r = Return tt /\
  modelStatus (world r) = resetStatus /\
  events r = [Db DeleteModel; StatusReplaced resetStatus] /\
  chunkStore (world r) = chunkStore imported /\
  map fst (chunkStore (world r))
    = [0; 16 * MiB; 32 * MiB; 48 * MiB; 64 * MiB; 80 * MiB; 96 * MiB] /\
  totalSize (chunkStore (world r)) = 100 * MiB.
Proof.
  cbv zeta.
  set (imported := world (importModel quietPlatform model100 initialWorld)).
  pose proof (resetModel_chunkStore quietPlatform imported) as (Hchunks & _).
  split; [apply resetModel_never_throws |].
  split; [apply resetModel_erases_record |].
  split; [rewrite resetModel_run; reflexivity |].
  split; [exact Hchunks |]. rewrite Hchunks.
  split; lazy; reflexivity.
Qed.

(** ** Runs of the loop are unique *)

Lemma LoopRun_deterministic P file o w r1 o1 w1 t1 :
  LoopRun P file o w r1 o1 w1 t1 ->
  forall r2 o2 w2 t2,
    LoopRun P file o w r2 o2 w2 t2 ->
    r1 = r2 /\ o1 = o2 /\ w1 = w2 /\ t1 = t2.
Proof.
  induction 1 as [o w Hge | o w e Hlt Hf | o w r o' w' t Hlt Hf Hrun IH];
    intros r2 o2 w2 t2 H2; inversion H2; subst; try lia; try congruence.
  - auto.
  - repeat split; congruence.
  - match goal with
    | H : LoopRun _ _ _ _ _ _ _ _ |- _ =>
        destruct (IH _ _ _ _ H) as (-> & -> & -> & ->)
    end.
    auto.
Qed.

Lemma writeLoop_fuel_irrelevant P file w (fuel : nat) :
  (loopFuel file <= fuel)%nat ->
  writeLoop P fuel file 0 w = writeLoop P (loopFuel file) file 0 w.
Proof.
  intros Hfuel.
  destruct (writeLoop_LoopRun P (loopFuel file) file 0 w (loopFuel_enough file))
    as (r1 & o1 & w1 & t1 & E1 & L1).
  destruct (writeLoop_LoopRun P fuel file 0 w) as (r2 & o2 & w2 & t2 & E2 & L2).
  { pose proof (loopFuel_enough file). pose proof CHUNK_SIZE_pos. nia. }
  destruct (LoopRun_deterministic _ _ _ _ _ _ _ _ L1 _ _ _ _ L2)
    as (-> & _ & -> & ->).
  congruence.
Qed.

(** C9: the loop of step 3, run from offset 0 with the fuel
    [importModel] gives it, always comes to an end, and more fuel changes
    nothing.  Its run is a [LoopRun]: every iteration starts at an offset
    below the file size, writes the window [slice(offset, offset +
    CHUNK_SIZE)] at that offset (between 1 byte and 16 MiB, shorter only
    when fewer bytes are left) and moves the offset forward by the size
    of that window.  The run ends either at the loop test, with the offset
    equal to the file size, or at a chunk write that throws, at an offset
    below the file size.  When no chunk write throws it ends at the loop
    test. *)
Theorem writeLoop_invariant_and_termination
  (P : Platform) (file : File) (w : World) :
  exists r o rows,
    (forall fuel, (loopFuel file <= fuel)%nat ->
       outcome (writeLoop P fuel file 0 w) = r) /\
    LoopRun P file 0 w r o
      (world (writeLoop P (loopFuel file) file 0 w))
      (events (writeLoop P (loopFuel file) file 0 w)) /\
    Contiguous file 0 rows o /\
    ((r = Return tt /\ o = size (content file) /\
      putCalls (events (writeLoop P (loopFuel file) file 0 w)) = rows) \/
     (exists e,
        r = Throw e /\ o < size (content file) /\
        dbFault P (PutChunk (slice (content file) o (o + CHUNK_SIZE)) o)
          = Some e /\
        putCalls (events (writeLoop P (loopFuel file) file 0 w))
          = (rows ++ [(o, slice (content file) o (o + CHUNK_SIZE))])%list)) /\
    ((forall chunk offset, dbFault P (PutChunk chunk offset) = None) ->
     r = Return tt /\ o = size (content file)).
Proof.
  destruct (writeLoop_LoopRun P (loopFuel file) file 0 w (loopFuel_enough file))
    as (r & o & w' & t & Hrun & HL).
  pose proof (LoopRun_shape _ _ _ _ _ _ _ _ HL) as (rows & Hc & Hw & Ht).
  pose proof (Contiguous_bounds _ _ _ _ Hc) as (_ & Hstop & _).
  exists r, o, rows. split.
  { intros fuel Hfuel. rewrite writeLoop_fuel_irrelevant by exact Hfuel.
    rewrite Hrun. reflexivity. }
  rewrite Hrun. cbn [outcome world events fst snd].
  split; [exact HL |]. split; [exact Hc |].
  destruct Ht as [(-> & Hge & ->) | (e & -> & Hlt & Hf & ->)].
  - assert (o = size (content file)) by lia.
    split; [| auto].
    left. rewrite putCalls_iterationEvents. auto.
  - split.
    + right. exists e. rewrite putCalls_app, putCalls_iterationEvents. auto.
    + intros Hnone. rewrite Hnone in Hf. discriminate.
Qed.

Lemma writeLoop_invariant_and_termination_witness :
  exists rows,
    Contiguous model100 0 rows (size (content model100)) /\
    outcome (writeLoop quietPlatform (loopFuel model100) model100 0
               initialWorld) = Return tt.
Proof.
  destruct (writeLoop_invariant_and_termination quietPlatform model100
              initialWorld) as (r & o & rows & Hfuel & _ & Hc & _ & Hquiet).
  destruct Hquiet as (Hr & Ho); [reflexivity |].
  exists rows. rewrite <- Ho. split; [exact Hc |].
  rewrite (Hfuel (loopFuel model100) (Nat.le_refl _)). exact Hr.
Defined.

(** ** The bytes of contiguous rows *)

Lemma arrayBuffer_window (b : Blob) (o : N) :
  o < size b ->
  arrayBuffer (slice b o (o + CHUNK_SIZE)) =
  map (fun i => byteAt b (N.of_nat i))
      (seq (N.to_nat o) (N.to_nat (size (slice b o (o + CHUNK_SIZE))))).
Proof.
  intros Ho. unfold arrayBuffer at 1. rewrite (map_seq_from _ _ (N.to_nat o)).
  apply map_ext. intros i. unfold slice. cbn [byteAt]. f_equal. lia.
Qed.

Lemma Contiguous_bytes (file : File) o rows stop :
  Contiguous file o rows stop ->
  List.concat (map arrayBuffer (idbGetAll rows)) =
  map (fun i => byteAt (content file) (N.of_nat i))
      (seq (N.to_nat o) (N.to_nat (stop - o))).
Proof.
  induction 1 as [o | o chunk rows stop Hlt Hc Hb Hrest IH].
  - rewrite N.sub_diag. reflexivity.
  - pose proof (Contiguous_bounds _ _ _ _ Hrest) as (Hle & _ & _).
    cbn [idbGetAll map snd List.concat]. fold (idbGetAll rows).
    rewrite IH. subst chunk. rewrite arrayBuffer_window by assumption.
    rewrite <- map_app. f_equal.
    set (k := size (slice (content file) o (o + CHUNK_SIZE))) in *.
    replace (N.to_nat (stop - o))
      with (N.to_nat k + N.to_nat (stop - (o + k)))%nat by lia.
    rewrite seq_app. f_equal. f_equal. lia.
Qed.

Lemma Contiguous_sorted (file : File) o rows stop :
  Contiguous file o rows stop -> Sorted N.lt (map fst rows).
Proof.
  induction 1 as [o | o chunk rows stop Hlt Hc Hb Hrest IH].
  - constructor.
  - cbn [map fst]. constructor; [exact IH |].
    inversion Hrest; subst; cbn [map fst]; constructor. lia.
Qed.

Lemma storeInChunks_quiet P file w :
  dbFault P ClearChunks = None ->
  (forall chunk offset, dbFault P (PutChunk chunk offset) = None) ->
  exists rows,
    Contiguous file 0 rows (size (content file)) /\
    storeInChunks P file w =
      (Return tt, afterIterations file rows (cleared w),
       Db ClearChunks :: iterationEvents file rows) /\
    chunkStore (afterIterations file rows (cleared w)) = rows.
Proof.
  intros Hclear Hput. rewrite storeInChunks_run, Hclear.
  destruct (writeLoop_from_zero P file (cleared w))
    as (r & o & rows & Hc & [(-> & Hge & ->) | (e & _ & _ & Hf & _)]).
  2:{ rewrite Hput in Hf. discriminate. }
  pose proof (Contiguous_bounds _ _ _ _ Hc) as (_ & Hstop & _).
  assert (o = size (content file)) as -> by lia.
  exists rows. split; [exact Hc |]. split; [reflexivity |].
  rewrite (afterIterations_chunkStore _ _ _ _ Hc); [reflexivity |].
  constructor.
Qed.

(** C4: for every byte sequence, step 3 on a file holding it (on a
    platform whose chunk-store calls do not throw) returns normally and
    leaves a chunk store whose keys ascend, whose rows are the windows of
    the file from offset 0 to its length, each starting where the one
    before ends, and whose values, in [getAll] order, concatenate to the
    byte sequence itself; so does the blob [new Blob(chunks)] that is
    hashed. *)
Theorem chunk_store_round_trip
  (P : Platform) (fileName : string) (bytes : list byte) (w : World) :
  dbFault P ClearChunks = None ->
  (forall chunk offset, dbFault P (PutChunk chunk offset) = None) ->
  let file := mkFile fileName (blobOfBytes bytes) in
  let r := storeInChunks P file w in
  let chunks := idbGetAll (chunkStore (world r)) in
  outcome r = Return tt /\
  Sorted N.lt (map fst (chunkStore (world r))) /\
  Contiguous file 0 (chunkStore (world r)) (N.of_nat (List.length bytes)) /\
  List.concat (map arrayBuffer chunks) = bytes /\
  arrayBuffer (newBlob chunks) = bytes.
Proof.
  intros Hclear Hput file r chunks. subst r chunks.
  destruct (storeInChunks_quiet P file w Hclear Hput) as (rows & Hc & -> & Hrows).
  cbn [outcome world fst snd]. rewrite Hrows.
  assert (Hbytes : List.concat (map arrayBuffer (idbGetAll rows)) = bytes).
  { rewrite (Contiguous_bytes _ _ _ _ Hc), N.sub_0_r.
    change (arrayBuffer (content file) = bytes).
    apply arrayBuffer_blobOfBytes. }
  split; [reflexivity |].
  split; [eapply Contiguous_sorted; exact Hc |].
  split; [exact Hc |].
  split; [exact Hbytes |].
  rewrite arrayBuffer_newBlob. exact Hbytes.
Qed.

Lemma chunk_store_round_trip_witness :
  List.concat
    (map arrayBuffer
       (idbGetAll
          (chunkStore
             (world (storeInChunks quietPlatform
                       (mkFile "tiny.gguf" (blobOfBytes [x01; x02; x03]))
                       initialWorld)))))
  = [x01; x02; x03].
Proof.
  apply (chunk_store_round_trip quietPlatform "tiny.gguf" [x01; x02; x03]
           initialWorld); reflexivity.
Defined.

(** ** Progress during step 3 *)

Lemma bytesWritten_cons_put chunk o t :
  bytesWritten (Db (PutChunk chunk o) :: t) = size chunk + bytesWritten t.
Proof. reflexivity. Qed.

Lemma bytesWritten_cons_status u t :
  bytesWritten (StatusMerged u :: t) = bytesWritten t.
Proof. reflexivity. Qed.

(** In the events of contiguous iterations, followed by events that are
    no status update, every status update reports the bytes written
    before it. *)
Lemma iterationEvents_report (file : File) o rows stop :
  Contiguous file o rows stop ->
  forall tail t1 u t2,
    (forall u', ~ In (StatusMerged u') tail) ->
    (iterationEvents file rows ++ tail)%list = (t1 ++ StatusMerged u :: t2)%list ->
    u = progressUpdate (o + bytesWritten t1) (size (content file)).
Proof.
  induction 1 as [o | o chunk rows stop Hlt Hc Hb Hrest IH];
    intros tail t1 u t2 Htail Heq.
  - cbn in Heq. exfalso. apply (Htail u). rewrite Heq.
    apply in_or_app. right. left. reflexivity.
  - cbn [iterationEvents flat_map fst snd app] in Heq.
    fold (iterationEvents file rows) in Heq.
    destruct t1 as [| e1 [| e2 t1]]; cbn [app] in Heq.
    + discriminate.
    + injection Heq as <- <- _.
      rewrite bytesWritten_cons_put. cbn. rewrite N.add_0_r. reflexivity.
    + injection Heq as <- <- Hrest'.
      rewrite bytesWritten_cons_put, bytesWritten_cons_status, N.add_assoc.
      eapply IH; eassumption.
Qed.

Lemma storeInChunks_events P file w :
  exists rows o tail,
    Contiguous file 0 rows o /\
    (forall u', ~ In (StatusMerged u') tail) /\
    (events (storeInChunks P file w) = [Db ClearChunks] \/
     events (storeInChunks P file w)
       = (Db ClearChunks :: iterationEvents file rows ++ tail)%list).
Proof.
  rewrite storeInChunks_run.
  destruct (dbFault P ClearChunks) as [e |].
  { exists [], 0, []. split; [constructor |]. split; [intros u' [] |].
    left. reflexivity. }
  destruct (writeLoop_from_zero P file (cleared w))
    as (r & o & rows & Hc & [(-> & Hge & ->) | (e & _ & _ & Hf & ->)]).
  - exists rows, o, []. split; [exact Hc |]. split; [intros u' [] |].
    right. cbn. rewrite app_nil_r. reflexivity.
  - exists rows, o, [Db (PutChunk (slice (content file) o (o + CHUNK_SIZE)) o)].
    split; [exact Hc |]. split.
    + intros u' [H | []]. discriminate.
    + right. reflexivity.
Qed.

Lemma storeInChunks_report P file w t1 u t2 :
  events (storeInChunks P file w) = (t1 ++ StatusMerged u :: t2)%list ->
  u = progressUpdate (bytesWritten t1) (size (content file)).
Proof.
  intros Heq.
  destruct (storeInChunks_events P file w)
    as (rows & o & tail & Hc & Htail & [Hev | Hev]); rewrite Hev in Heq.
  - destruct t1 as [| e1 [| e2 t1]]; discriminate.
  - destruct t1 as [| e1 t1]; cbn [app] in Heq; [discriminate |].
    injection Heq as <- Heq.
    change (bytesWritten (Db ClearChunks :: t1)) with (0 + bytesWritten t1).
    eapply iterationEvents_report; eassumption.
Qed.

Lemma first_window_32MiB (file : File) :
  size (content file) = 32 * MiB ->
  size (slice (content file) 0 (0 + CHUNK_SIZE)) = 16 * MiB.
Proof.
  intros Hsize. rewrite slice_window_size by (rewrite Hsize; reflexivity).
  rewrite Hsize. reflexivity.
Qed.

Lemma runningTotals_Contiguous (file : File) o rows stop :
  Contiguous file o rows stop ->
  runningTotals o rows = map (fun row => fst row + size (snd row)) rows.
Proof.
  induction 1 as [o | o chunk rows stop Hlt Hc Hb Hrest IH]; [reflexivity |].
  cbn [runningTotals map fst snd]. rewrite IH. reflexivity.
Qed.

(** In the events of contiguous iterations, followed by events that are
    no chunk write, every chunk write is followed at once by the status
    update that reports the bytes written up to and including it. *)
Lemma iterationEvents_put (file : File) o rows stop :
  Contiguous file o rows stop ->
  forall tail t1 chunk k t2,
    (forall c k', ~ In (Db (PutChunk c k')) tail) ->
    (iterationEvents file rows ++ tail)%list
      = (t1 ++ Db (PutChunk chunk k) :: t2)%list ->
    exists t3,
      t2 = StatusMerged (progressUpdate (o + bytesWritten t1 + size chunk)
                                        (size (content file))) :: t3.
Proof.
  induction 1 as [o | o chunk0 rows stop Hlt Hc Hb Hrest IH];
    intros tail t1 chunk k t2 Htail Heq.
  - cbn in Heq. exfalso. apply (Htail chunk k). rewrite Heq.
    apply in_or_app. right. left. reflexivity.
  - cbn [iterationEvents flat_map fst snd app] in Heq.
    fold (iterationEvents file rows) in Heq.
    destruct t1 as [| e1 [| e2 t1]]; cbn [app] in Heq.
    + injection Heq as <- <- <-. eexists.
      change (bytesWritten []) with 0. rewrite N.add_0_r. reflexivity.
    + discriminate.
    + injection Heq as <- <- Hrest'.
      rewrite bytesWritten_cons_put, bytesWritten_cons_status, N.add_assoc.
      eapply IH; eassumption.
Qed.

Lemma bytesWritten_iterationEvents (file : File) o rows stop :
  Contiguous file o rows stop ->
  bytesWritten (iterationEvents file rows) = stop - o.
Proof.
  intros Hc. unfold bytesWritten. rewrite putCalls_iterationEvents.
  apply (Contiguous_bounds _ _ _ _ Hc).
Qed.



(** ** Progress over a whole session *)

Lemma StageFails_reports P file w0 stage e w1 t :
  StageFails P file w0 stage e w1 t ->
  exists rows o,
    Contiguous file 0 rows o /\
    progressReports t = reportsOf file rows.
Proof.
  destruct 1;
    try (exists [], 0; split; [constructor | reflexivity]).
  - exists rows, o. split; [assumption |].
    cbn [progressReports]. rewrite progressReports_app.
    rewrite progressReports_iterationEvents. cbn. apply app_nil_r.
  - exists rows, (size (content file)). split; [assumption |].
    cbn [progressReports]. rewrite progressReports_app.
    rewrite progressReports_iterationEvents. cbn. apply app_nil_r.
Qed.

Lemma NonDecreasing_from_zero (file : File) o rows :
  Contiguous file 0 rows o ->
  NonDecreasing (0%Q :: reportsOf file rows) /\
  (forall p, In p (reportsOf file rows) -> (0 <= p <= 80)%Q).
Proof.
  intros Hc. pose proof (Contiguous_progress _ _ _ _ Hc) as H.
  cbv zeta in H. destruct H as [Hnd Hrange].
  split; [| exact Hrange].
  apply NonDecreasing_cons.
  - eapply NonDecreasing_tail. exact Hnd.
  - intros q Hq. apply Hrange. exact Hq.
Qed.

(** C2 (as the code has it): the reports of an import that completes
    never decrease and end with 100; when an import fails, the reports
    before the failure never decrease, and then the [catch] block reports
    0, which is also the [importProgress] the status is left with. *)
Theorem progress_monotone_until_failure
  (P : Platform) (file : File) (w : World) :
  let r := importModel P file w in
  let reports := progressReports (events r) in
  (outcome r = Return tt /\
   NonDecreasing reports /\
   exists earlier, reports = (earlier ++ [100%Q])%list) \/
  (exists e earlier,
     outcome r = Throw e /\
     reports = (earlier ++ [0%Q])%list /\
     NonDecreasing earlier /\
     importProgress (modelStatus (world r)) = 0%Q).
Proof.
  cbv zeta. pose proof (importModel_ImportRun P file w) as Hrun.
  inversion Hrun as [rows Hv Hq Hclear Hc Hget Hdig w1 digest Ho Hw Ht
                    | stage e w1 t Hf Ho Hw Ht].
  - left. split; [reflexivity |].
    assert (Hrep : progressReports
                     (StatusMerged startUpdate :: Db ClearChunks
                      :: iterationEvents file rows
                      ++ [Db GetAllChunks; StatusMerged hashedUpdate;
                          StatusMerged (finalStatus file digest)])
                   = (0%Q :: reportsOf file rows ++ [90%Q; 100%Q])%list).
    { cbn [progressReports startUpdate u_importProgress].
      rewrite progressReports_app, progressReports_iterationEvents.
      reflexivity. }
    rewrite Hrep.
    destruct (NonDecreasing_from_zero _ _ _ Hc) as [Hnd Hrange].
    split.
    + change (NonDecreasing ((0%Q :: reportsOf file rows) ++ [90%Q; 100%Q])).
      apply NonDecreasing_app; [exact Hnd | |].
      * constructor; [discriminate | constructor].
      * intros a b [<- | Ha] Hb.
        -- destruct Hb as [<- | [<- | []]]; discriminate.
        -- apply Qle_trans with 80%Q; [apply Hrange; exact Ha |].
           destruct Hb as [<- | [<- | []]]; discriminate.
    + exists (0%Q :: reportsOf file rows ++ [90%Q])%list.
      cbn [app]. rewrite <- app_assoc. reflexivity.
  - right. destruct (StageFails_reports _ _ _ _ _ _ _ Hf) as (rows & o & Hc & Hrep).
    exists e, (0%Q :: reportsOf file rows)%list.
    split; [reflexivity |]. split.
    + cbn [progressReports startUpdate u_importProgress].
      rewrite progressReports_app, Hrep. reflexivity.
    + split; [apply (NonDecreasing_from_zero _ _ _ Hc) | reflexivity].
Qed.

(** C2, as stated, fails: the 100 MiB import whose second chunk write
    throws reports 0, then 12.8, then 0. *)
Lemma progress_drops_on_failure :
  let r := importModel secondPutThrows model100 initialWorld in
  outcome r = Throw (ErrorObject "QuotaExceededError") /\
  (exists p, progressReports (events r) = [0%Q; p; 0%Q] /\ (p == 64 # 5)%Q) /\
  ~ NonDecreasing (progressReports (events r)).
Proof.
  cbv zeta. split; [lazy; reflexivity |]. split.
  - eexists. split; [lazy; reflexivity | reflexivity].
  - intros Hnd.
    assert (E : progressReports
                  (events (importModel secondPutThrows model100 initialWorld))
                = [0%Q; 1342177280 # 104857600; 0%Q]) by (lazy; reflexivity).
    rewrite E in Hnd.
    inversion Hnd as [| | p q l _ Htail]; subst.
    inversion Htail as [| | p q l Hle _]; subst.
    revert Hle. unfold Qle. cbn. lia.
Qed.

(** ** What a failed import leaves of the record *)

Lemma afterIterations_identity file rows w :
  identity (modelStatus (afterIterations file rows w))
  = identity (modelStatus w).
Proof.
  pose proof (afterIterations_frame file rows w) as H. cbv zeta in H.
  destruct H as (_ & H1 & H2 & H3 & H4 & H5 & _ & H7 & _).
  unfold identity. congruence.
Qed.

Lemma StageFails_identity P file w0 stage e w1 t :
  StageFails P file w0 stage e w1 t ->
  identity (modelStatus w1) = identity (modelStatus w0).
Proof.
  destruct 1; try reflexivity;
    apply (afterIterations_identity file rows (cleared w0)).
Qed.

Lemma importModel_never_erases P file w :
  ~ erases w (world (importModel P file w)).
Proof.
  pose proof (importModel_modelStore P file w) as Hstore.
  pose proof (importModel_ImportRun P file w) as Hrun.
  inversion Hrun as [rows Hv Hq Hclear Hc Hget Hdig w1 digest Ho Hw Ht
                    | stage e w1 t Hf Ho Hw Ht];
    rewrite <- Hw in Hstore; unfold erases;
    cbn [withStatus modelStatus modelStore] in *.
  - intros [(_ & H) | [(_ & H) | [(_ & H) | [(_ & H) | [(_ & H) | (H1 & H2)]]]]];
      try discriminate H. congruence.
  - apply StageFails_identity in Hf. unfold identity in Hf.
    injection Hf as H1 _ H3 H4 H5 _.
    cbn [spread failureStatus override isImported fileName fileSize sha256
         verificationStatus
         u_isImported u_fileName u_fileSize u_sha256 u_verificationStatus].
    cbn [withStatus modelStatus spread startUpdate override isImported
         fileName fileSize sha256
         u_isImported u_fileName u_fileSize u_sha256] in H1, H3, H4, H5.
    rewrite H1, H3, H4, H5.
    intros [(Ha & Hb) | [(Ha & Hb) | [(Ha & Hb) | [(Ha & Hb) | [(Ha & Hb)
                                                                | (Ha & Hb)]]]]];
      congruence.
Qed.

Lemma only_resetModel_erases P op w :
  erases w (perform P op w) -> op = ResetModel.
Proof.
  destruct op as [file | | |]; cbn [perform]; intros He;
    [| | | reflexivity]; exfalso.
  - exact (importModel_never_erases P file w He).
  - rewrite verifyModel_world in He. unfold erases in He.
    intuition congruence.
  - rewrite checkStorageQuota_run in He. unfold erases in He.
    cbn [world fst snd] in He. intuition congruence.
Qed.

(** C1 (as the code has it): when [importModel] throws, whatever the
    stage, the status keeps its [isImported], [isLoaded], [fileName],
    [fileSize], [sha256] and [isVerified], and the [modelStore] table is
    what it was; but [verificationStatus] is now [failed],
    [importProgress] is 0 and [error] is the message of the error that was
    thrown (the fixed text of [UI_MESSAGES.IMPORT_ERROR] when what was
    thrown is no [Error]).  Only a reset erases the record: of the
    operations of the store, on any platform and from any state, none but
    [resetModel] erases anything of it, and [resetModel] erases
    [fileName], [fileSize] and [sha256]. *)
Theorem failed_import_keeps_identity
  (P : Platform) (file : File) (w : World) (e : Thrown) :
  outcome (importModel P file w) = Throw e ->
  let s := modelStatus w in
  let s' := modelStatus (world (importModel P file w)) in
  isImported s' = isImported s /\
  isLoaded s' = isLoaded s /\
  fileName s' = fileName s /\
  fileSize s' = fileSize s /\
  sha256 s' = sha256 s /\
  isVerified s' = isVerified s /\
  verificationStatus s' = Some failed /\
  importProgress s' = 0%Q /\
  error s' = Some match e with
                  | ErrorObject message => message
                  | OtherValue => "Failed to import model"
                  end /\
  modelStore (world (importModel P file w)) = modelStore w /\
  (forall P' op w0, erases w0 (perform P' op w0) -> op = ResetModel) /\
  (forall P',
     let reset := modelStatus (world (resetModel P' (world (importModel P file w)))) in
     fileName reset = None /\ fileSize reset = None /\ sha256 reset = None /\
     verificationStatus reset = Some unverified).
Proof.
  intros Hthrow. cbv zeta.
  pose proof (importModel_modelStore P file w) as Hstore.
  pose proof (importModel_ImportRun P file w) as Hrun.
  rewrite Hthrow in Hrun.
  inversion Hrun as [| stage e' w1 t Hf Ho Hw Ht]; subst e'.
  apply StageFails_identity in Hf. unfold identity in Hf.
  injection Hf as H1 H2 H3 H4 H5 H6.
  rewrite <- Hw in Hstore.
  split; [exact H1 |]. split; [exact H2 |]. split; [exact H3 |].
  split; [exact H4 |]. split; [exact H5 |]. split; [exact H6 |].
  split; [reflexivity |]. split; [reflexivity |].
  split; [destruct e; reflexivity |]. split; [exact Hstore |].
  split; [exact only_resetModel_erases |].
  intros P'. rewrite resetModel_run. cbn. auto.
Qed.

Lemma failed_import_keeps_identity_witness :
  let before := world (importModel quietPlatform model100 initialWorld) in
  let after := world (importModel getAllThrows my_model before) in
  fileName (modelStatus after) = fileName (modelStatus before) /\
  sha256 (modelStatus after) = sha256 (modelStatus before) /\
  verificationStatus (modelStatus after) = Some failed /\
  error (modelStatus after) = Some "The operation failed".
Proof.
  cbv zeta.
  destruct (failed_import_keeps_identity getAllThrows my_model
              (world (importModel quietPlatform model100 initialWorld))
              (ErrorObject "The operation failed"))
    as (_ & _ & Hname & _ & Hsha & _ & Hstatus & _ & Herror & _).
  - lazy. reflexivity.
  - cbv zeta in *. auto.
Defined.

(** C1, as stated, fails: after a completed import (status
    [unverified]), an import that fails at the hashing stage leaves the
    status [failed], with the message of the error in [error]. *)
Lemma failed_import_overwrites_verificationStatus :
  let before := world (importModel quietPlatform model100 initialWorld) in
  let r := importModel getAllThrows model100 before in
  outcome (importModel quietPlatform model100 initialWorld) = Return tt /\
  isImported (modelStatus before) = true /\
  verificationStatus (modelStatus before) = Some unverified /\
  outcome r = Throw (ErrorObject "The operation failed") /\
  last (events r) (Db GetModel) =
    StatusMerged (failureStatus (ErrorObject "The operation failed")) /\
  verificationStatus (modelStatus (world r)) = Some failed /\
  error (modelStatus (world r)) = Some "The operation failed" /\
  verificationStatus (modelStatus (world r))
    <> verificationStatus (modelStatus before).
Proof.
  cbv zeta.
  assert (E1 : verificationStatus
                 (modelStatus (world (importModel quietPlatform model100
                                         initialWorld))) = Some unverified)
    by (lazy; reflexivity).
  assert (E2 : verificationStatus
                 (modelStatus
                    (world (importModel getAllThrows model100
                              (world (importModel quietPlatform model100
                                        initialWorld))))) = Some failed)
    by (lazy; reflexivity).
  repeat split; try (lazy; reflexivity).
  rewrite E1, E2. discriminate.
Qed.

(** ** Digests are hex strings, and no inherited property name is one *)

Lemma isHexString_app (s1 s2 : string) :
  isHexString (s1 ++ s2) = isHexString s1 && isHexString s2.
Proof.
  induction s1 as [| c s1 IH]; [reflexivity |].
  cbn [append isHexString]. rewrite IH. apply andb_assoc.
Qed.

Lemma isHexString_byte (b : byte) :
  isHexString (padStart2 (toString16 b)) = true.
Proof. destruct b; reflexivity. Qed.

Lemma isHexString_hexEncode (bs : list byte) :
  isHexString (hexEncode bs) = true.
Proof.
  induction bs as [| b bs IH]; [reflexivity |].
  cbn [hexEncode fold_right]. fold (hexEncode bs).
  rewrite isHexString_app, isHexString_byte, IH. reflexivity.
Qed.

Lemma isHexString_not_inherited (k : string) :
  isHexString k = true ->
  existsb (String.eqb k) Object_prototype_keys = false.
Proof.
  intros Hk. apply not_true_is_false. intros Hex.
  apply existsb_exists in Hex. destruct Hex as (key & Hin & Heq).
  apply String.eqb_eq in Heq. subst key.
  cbn in Hin.
  repeat (destruct Hin as [<- | Hin]; [discriminate Hk |]).
  exact Hin.
Qed.

(** For a digest, [KNOWN_MODEL_HASHES[sha256]] is an own property or
    undefined. *)
Lemma getProperty_digest {A : Type} (obj : list (string * A)) (bs : list byte) :
  truthy (getProperty obj (hexEncode bs)) =
  match assoc (hexEncode bs) obj with
  | Some _ => true
  | None => false
  end.
Proof.
  unfold getProperty.
  destruct (assoc (hexEncode bs) obj); [reflexivity |].
  rewrite isHexString_not_inherited by apply isHexString_hexEncode.
  reflexivity.
Qed.


Lemma importModel_registered_completes :
  outcome (importModel registeredDigestPlatform my_model initialWorld)
  = Return tt.
Proof. lazy. reflexivity. Qed.



(* ------------------------------------------------------------------ *)
(** * Further properties of the import *)

(** What the loop does is decided by the platform and the file: the
    same windows are written, and the same completion reached, from every
    state. *)
Lemma writeLoop_uniform (P : Platform) (file : File) (fuel : nat) :
  forall o,
    size (content file) - o <= N.of_nat fuel * CHUNK_SIZE ->
    exists rows stop,
      Contiguous file o rows stop /\
      quietRows P rows /\
      ((size (content file) <= stop /\
        forall w, writeLoop P fuel file o w
                  = (Return tt, afterIterations file rows w,
                     iterationEvents file rows)) \/
       (exists e,
           stop < size (content file) /\
           dbFault P (PutChunk (slice (content file) stop (stop + CHUNK_SIZE))
                               stop) = Some e /\
           forall w, writeLoop P fuel file o w
                     = (Throw e, afterIterations file rows w,
                        (iterationEvents file rows
                         ++ [Db (PutChunk (slice (content file) stop
                                             (stop + CHUNK_SIZE)) stop)])%list))).
Proof.
  induction fuel as [| fuel IH]; intros o Hfuel.
  - exists [], o. split; [constructor |]. split; [constructor |].
    left. split; [lia |]. intros w. apply writeLoop_exit. lia.
  - destruct (N.lt_ge_cases o (size (content file))) as [Hlt | Hge].
    2:{ exists [], o. split; [constructor |]. split; [constructor |].
        left. split; [lia |]. intros w. apply writeLoop_exit. lia. }
    set (chunk := slice (content file) o (o + CHUNK_SIZE)).
    destruct (dbFault P (PutChunk chunk o)) as [e |] eqn:Hf.
    { exists [], o. split; [constructor |]. split; [constructor |].
      right. exists e. split; [exact Hlt |]. split; [exact Hf |].
      intros w. rewrite writeLoop_step by exact Hlt. cbv zeta.
      fold chunk. rewrite Hf. reflexivity. }
    pose proof (slice_window_size (content file) o Hlt) as Hs.
    destruct (IH (o + size chunk)) as (rows & stop & Hc & Hq & Hrun).
    { subst chunk. rewrite Hs. pose proof CHUNK_SIZE_pos. lia. }
    exists ((o, chunk) :: rows), stop.
    split. { constructor; auto. apply slice_window_bounds. exact Hlt. }
    split. { constructor; [exact Hf | exact Hq]. }
    destruct Hrun as [(Hge & Hrun) | (e & Hlt' & Hf' & Hrun)].
    + left. split; [exact Hge |]. intros w.
      rewrite writeLoop_step by exact Hlt. cbv zeta. fold chunk.
      rewrite Hf, Hrun. reflexivity.
    + right. exists e. split; [exact Hlt' |]. split; [exact Hf' |].
      intros w. rewrite writeLoop_step by exact Hlt. cbv zeta. fold chunk.
      rewrite Hf, Hrun. reflexivity.
Qed.

(** Contiguous rows between two offsets are unique. *)
Lemma Contiguous_unique (file : File) o rows1 stop :
  Contiguous file o rows1 stop ->
  forall rows2, Contiguous file o rows2 stop ->
  size (content file) <= stop ->
  rows1 = rows2.
Proof.
  induction 1 as [o | o chunk rows stop Hlt Hc Hb Hrest IH];
    intros rows2 H2 Hstop; inversion H2; subst; try lia; try reflexivity.
  f_equal. apply IH; assumption.
Qed.

Lemma World_ext (w1 w2 : World) :
  modelStatus w1 = modelStatus w2 ->
  modelStore w1 = modelStore w2 ->
  chunkStore w1 = chunkStore w2 ->
  w1 = w2.
Proof. destruct w1, w2. cbn. intros -> -> ->. reflexivity. Qed.

Lemma statusUpdates_app t1 t2 :
  statusUpdates (t1 ++ t2) = (statusUpdates t1 ++ statusUpdates t2)%list.
Proof. apply flat_map_app. Qed.

Lemma replay_app us1 us2 s :
  replay (us1 ++ us2) s = replay us2 (replay us1 s).
Proof. apply fold_left_app. Qed.

Lemma afterIterations_status file o rows stop :
  Contiguous file o rows stop ->
  forall w,
    modelStatus (afterIterations file rows w)
    = replay (statusUpdates (iterationEvents file rows)) (modelStatus w).
Proof.
  induction 1 as [o | o chunk rows stop Hlt Hc Hb Hrest IH]; intros w;
    [reflexivity |].
  cbn [afterIterations fold_left fst].
  change (fold_left _ rows ?w0) with (afterIterations file rows w0).
  rewrite IH. subst chunk. reflexivity.
Qed.

Lemma afterIterations_cleared file rows stop w :
  Contiguous file 0 rows stop ->
  afterIterations file rows (cleared w)
  = {| modelStatus :=
         replay (statusUpdates (iterationEvents file rows)) (modelStatus w);
       modelStore := modelStore w;
       chunkStore := rows |}.
Proof.
  intros Hc. apply World_ext; cbn [modelStatus modelStore chunkStore].
  - apply (afterIterations_status file _ rows _ Hc (cleared w)).
  - apply (afterIterations_frame file rows (cleared w)).
  - rewrite (afterIterations_chunkStore _ _ _ _ Hc); [reflexivity | constructor].
Qed.

Lemma importModel_of_steps P file w :
  importModel P file w =
  match importSteps P file w with
  | (Throw e, w1, t1) =>
      (Throw e, withStatus (failureStatus e) w1,
       (t1 ++ [StatusMerged (failureStatus e)])%list)
  | other => other
  end.
Proof.
  unfold importModel, tryCatch.
  destruct (importSteps P file w) as [[[a | e |] w1] t1]; reflexivity.
Qed.

Lemma stateAfter_rows (file : File) rows stop (t2 : list Event) w :
  Contiguous file 0 rows stop ->
  (forall s,
     replay (statusUpdates t2)
       (replay (statusUpdates (iterationEvents file rows)) (spread s startUpdate))
     = replay (statusUpdates (StatusMerged startUpdate :: Db ClearChunks
                              :: iterationEvents file rows ++ t2)) s) /\
  afterIterations file rows (cleared (withStatus startUpdate w))
  = stateAfter (StatusMerged startUpdate :: Db ClearChunks
                :: iterationEvents file rows) (Some rows) w.
Proof.
  intros Hc. split.
  - intros s. cbn [statusUpdates flat_map app].
    change (flat_map _ ?t) with (statusUpdates t).
    rewrite statusUpdates_app. unfold replay. cbn [fold_left].
    rewrite fold_left_app. reflexivity.
  - rewrite (afterIterations_cleared _ _ _ _ Hc). reflexivity.
Qed.

Section Uniform.

Variable P : Platform.
Variable file : File.

Ltac unfold_tail :=
  cbv beta iota zeta
      delta [outcome world events fst snd throw bind ret
             setModelStatus emit modify];
  cbn [app].

Ltac enter w :=
  intros w; rewrite importModel_of_steps; unfold importSteps;
  unfold bind at 1; rewrite setModelStatus_run; fold startUpdate.

Ltac past_quota Hq :=
  cbn [negb]; unfold bind at 1; rewrite checkStorageQuota_run, Hq; cbn [negb].

(** An import session is decided by the platform and the file: its
    completion and its events are the same from every state, and the state
    it leaves is [stateAfter] of the state it started in. *)
Lemma importModel_uniform :
  exists r t rows,
    forall w, importModel P file w = (r, stateAfter t rows w, t).
Proof.
  destruct (endsWith (name file) MODEL_VALIDATION.EXPECTED_EXTENSION) eqn:Hext.
  2:{ exists (Throw (ErrorObject UI_MESSAGES.INVALID_FILE_TYPE)),
        [StatusMerged startUpdate;
         StatusMerged (failureStatus (ErrorObject UI_MESSAGES.INVALID_FILE_TYPE))],
        None.
      enter w. rewrite Hext. reflexivity. }
  destruct (size (content file) <? MODEL_VALIDATION.MIN_SIZE) eqn:Hmin.
  { exists (Throw (ErrorObject FILE_TOO_SMALL)),
      [StatusMerged startUpdate;
       StatusMerged (failureStatus (ErrorObject FILE_TOO_SMALL))], None.
    enter w. rewrite Hext, Hmin. reflexivity. }
  destruct (MODEL_VALIDATION.MAX_SIZE <? size (content file)) eqn:Hmax.
  { exists (Throw (ErrorObject UI_MESSAGES.FILE_TOO_LARGE)),
      [StatusMerged startUpdate;
       StatusMerged (failureStatus (ErrorObject UI_MESSAGES.FILE_TOO_LARGE))],
      None.
    enter w. rewrite Hext, Hmin, Hmax. reflexivity. }
  destruct (hasQuota (quotaAnswer P)) eqn:Hq.
  2:{ exists (Throw (ErrorObject (quotaMessage (quotaAnswer P)))),
        [StatusMerged startUpdate;
         StatusMerged (failureStatus
                         (ErrorObject (quotaMessage (quotaAnswer P))))], None.
      enter w. rewrite Hext, Hmin, Hmax. past_quota Hq. reflexivity. }
  destruct (dbFault P ClearChunks) as [e |] eqn:Hclear.
  { exists (Throw e),
      [StatusMerged startUpdate; Db ClearChunks;
       StatusMerged (failureStatus e)], None.
    enter w. rewrite Hext, Hmin, Hmax. past_quota Hq.
    unfold bind at 1. rewrite storeInChunks_run, Hclear. reflexivity. }
  destruct (writeLoop_uniform P file (loopFuel file) 0 (loopFuel_enough file))
    as (rows & stop & Hc & _ & [(Hge & Hloop) | (e & Hlt & Hf & Hloop)]).
  2:{ exists (Throw e),
        (StatusMerged startUpdate :: Db ClearChunks
         :: iterationEvents file rows
         ++ [Db (PutChunk (slice (content file) stop (stop + CHUNK_SIZE)) stop);
             StatusMerged (failureStatus e)])%list, (Some rows).
      enter w. rewrite Hext, Hmin, Hmax. past_quota Hq.
      unfold bind at 1. rewrite storeInChunks_run, Hclear, Hloop.
      destruct (stateAfter_rows file rows stop
                  [Db (PutChunk (slice (content file) stop (stop + CHUNK_SIZE))
                                stop);
                   StatusMerged (failureStatus e)] w Hc) as (Hrep & ->).
      unfold_tail. rewrite <- ?app_assoc. cbn [app].
      f_equal. f_equal. unfold stateAfter.
      apply World_ext; cbn [modelStatus modelStore chunkStore withStatus];
        try reflexivity.
      rewrite <- Hrep. reflexivity. }
  destruct (dbFault P GetAllChunks) as [e |] eqn:Hget.
  { exists (Throw e),
      (StatusMerged startUpdate :: Db ClearChunks
       :: iterationEvents file rows
       ++ [Db GetAllChunks; StatusMerged (failureStatus e)])%list, (Some rows).
    enter w. rewrite Hext, Hmin, Hmax. past_quota Hq.
    unfold bind at 1. rewrite storeInChunks_run, Hclear, Hloop.
    unfold bind at 1. rewrite calculateSHA256FromChunks_run, Hget.
    destruct (stateAfter_rows file rows stop
                [Db GetAllChunks; StatusMerged (failureStatus e)] w Hc)
      as (Hrep & ->).
    unfold_tail. rewrite ?app_nil_r, <- ?app_assoc. cbn [app].
    f_equal. f_equal. unfold stateAfter.
    apply World_ext; cbn [modelStatus modelStore chunkStore withStatus];
      try reflexivity.
    rewrite <- Hrep. reflexivity. }
  destruct (digestFault P) as [e |] eqn:Hdig.
  { exists (Throw e),
      (StatusMerged startUpdate :: Db ClearChunks
       :: iterationEvents file rows
       ++ [Db GetAllChunks; StatusMerged (failureStatus e)])%list, (Some rows).
    enter w. rewrite Hext, Hmin, Hmax. past_quota Hq.
    unfold bind at 1. rewrite storeInChunks_run, Hclear, Hloop.
    unfold bind at 1. rewrite calculateSHA256FromChunks_run, Hget, Hdig.
    destruct (stateAfter_rows file rows stop
                [Db GetAllChunks; StatusMerged (failureStatus e)] w Hc)
      as (Hrep & ->).
    unfold_tail. rewrite ?app_nil_r, <- ?app_assoc. cbn [app].
    f_equal. f_equal. unfold stateAfter.
    apply World_ext; cbn [modelStatus modelStore chunkStore withStatus];
      try reflexivity.
    rewrite <- Hrep. reflexivity. }
  exists (Return tt),
    (StatusMerged startUpdate :: Db ClearChunks
     :: iterationEvents file rows
     ++ [Db GetAllChunks; StatusMerged hashedUpdate;
         StatusMerged (finalStatus file (digestOf P rows))])%list, (Some rows).
  enter w. rewrite Hext, Hmin, Hmax. past_quota Hq.
  unfold bind at 1. rewrite storeInChunks_run, Hclear, Hloop.
  unfold bind at 1. rewrite calculateSHA256FromChunks_run, Hget, Hdig.
  destruct (stateAfter_rows file rows stop
              [Db GetAllChunks; StatusMerged hashedUpdate;
               StatusMerged (finalStatus file (digestOf P rows))] w Hc)
    as (Hrep & ->).
  unfold_tail. rewrite ?app_nil_r, <- ?app_assoc. cbn [app].
  f_equal. f_equal. unfold stateAfter.
  apply World_ext; cbn [modelStatus modelStore chunkStore withStatus];
    try reflexivity.
  rewrite <- Hrep. reflexivity.
Qed.

End Uniform.

Lemma override_orElse {A : Type} (x : A) (a b : option A) :
  override (override x a) b = override x (orElse b a).
Proof. destruct b; reflexivity. Qed.

Lemma override_twice {A : Type} (x : A) (a : option A) :
  override (override x a) a = override x a.
Proof. destruct a; reflexivity. Qed.

Lemma spread_merge s u1 u2 :
  spread (spread s u1) u2 = spread s (merge u1 u2).
Proof.
  unfold spread, merge. cbn. rewrite !override_orElse. reflexivity.
Qed.

Lemma spread_twice s u : spread (spread s u) u = spread s u.
Proof. unfold spread. cbn. rewrite !override_twice. reflexivity. Qed.

Lemma replay_as_spread us :
  us <> [] -> exists u, forall s, replay us s = spread s u.
Proof.
  induction us as [| u1 us IH]; [congruence |]. intros _.
  destruct us as [| u2 us].
  - exists u1. reflexivity.
  - destruct IH as (u & Hu); [discriminate |].
    exists (merge u1 u). intros s.
    change (replay (u1 :: u2 :: us) s) with (replay (u2 :: us) (spread s u1)).
    rewrite Hu. apply spread_merge.
Qed.

Lemma replay_twice us s : replay us (replay us s) = replay us s.
Proof.
  destruct us as [| u us]; [reflexivity |].
  destruct (replay_as_spread (u :: us)) as (u' & Hu); [discriminate |].
  rewrite !Hu. apply spread_twice.
Qed.

Lemma stateAfter_twice t rows w :
  stateAfter t rows (stateAfter t rows w) = stateAfter t rows w.
Proof.
  unfold stateAfter. cbn [modelStatus modelStore chunkStore].
  rewrite replay_twice. destruct rows; reflexivity.
Qed.

Lemma bind_ext {A B : Type} (m1 m2 : M A) (k1 k2 : A -> M B) (w : World) :
  m1 w = m2 w ->
  (forall a w', k1 a w' = k2 a w') ->
  bind m1 k1 w = bind m2 k2 w.
Proof.
  intros Hm Hk. unfold bind. rewrite Hm.
  destruct (m2 w) as [[[a | e |] w1] t1]; [rewrite Hk |..]; reflexivity.
Qed.

Lemma bind_run {A B : Type} (m : M A) (k : A -> M B) (w : World) a w1 t1 :
  m w = (Return a, w1, t1) ->
  bind m k w = let '(r, w2, t2) := k a w1 in (r, w2, (t1 ++ t2)%list).
Proof. intros Hm. unfold bind. rewrite Hm. reflexivity. Qed.

Section TwoPlatforms.

Variable P1 : Platform.
Variable P2 : Platform.
Hypothesis Hsame : sameButQuota P1 P2.

Lemma writeLoop_sameButQuota (file : File) (fuel : nat) :
  forall o w, writeLoop P1 fuel file o w = writeLoop P2 fuel file o w.
Proof.
  destruct Hsame as (Hdb & _).
  induction fuel as [| fuel IH]; intros o w.
  - reflexivity.
  - destruct (N.lt_ge_cases o (size (content file))) as [Hlt | Hge].
    + rewrite !writeLoop_step by exact Hlt. cbv zeta.
      rewrite Hdb, IH. reflexivity.
    + rewrite !writeLoop_exit by exact Hge. reflexivity.
Qed.

Lemma storeInChunks_sameButQuota (file : File) (w : World) :
  storeInChunks P1 file w = storeInChunks P2 file w.
Proof.
  rewrite !storeInChunks_run, writeLoop_sameButQuota.
  destruct Hsame as (-> & _). reflexivity.
Qed.

Lemma calculateSHA256FromChunks_sameButQuota (w : World) :
  calculateSHA256FromChunks P1 w = calculateSHA256FromChunks P2 w.
Proof.
  rewrite !calculateSHA256FromChunks_run. unfold digestOf.
  destruct Hsame as (-> & -> & ->). reflexivity.
Qed.

(** An import is decided by the file, the database, the digest and the
    verdict of the quota check. *)
Lemma importModel_sameButQuota (file : File) (w : World) :
  sameVerdict (quotaAnswer P1) (quotaAnswer P2) ->
  importModel P1 file w = importModel P2 file w.
Proof.
  intros Hq. rewrite !importModel_of_steps.
  enough (H : importSteps P1 file w = importSteps P2 file w)
    by (rewrite H; reflexivity).
  unfold importSteps. apply bind_ext; [reflexivity |]. intros _ w0.
  destruct (negb (endsWith (name file) MODEL_VALIDATION.EXPECTED_EXTENSION));
    [reflexivity |].
  destruct (size (content file) <? MODEL_VALIDATION.MIN_SIZE); [reflexivity |].
  destruct (MODEL_VALIDATION.MAX_SIZE <? size (content file)); [reflexivity |].
  rewrite (bind_run _ _ _ _ _ _ (checkStorageQuota_run P1 w0)).
  rewrite (bind_run _ _ _ _ _ _ (checkStorageQuota_run P2 w0)).
  assert (Htail : forall w',
             (storeInChunks P1 file ;;
              sha256 <- calculateSHA256FromChunks P1 ;;
              setModelStatus hashedUpdate ;;
              setModelStatus (finalStatus file sha256))%js w'
             = (storeInChunks P2 file ;;
                sha256 <- calculateSHA256FromChunks P2 ;;
                setModelStatus hashedUpdate ;;
                setModelStatus (finalStatus file sha256))%js w').
  { intros w'. apply bind_ext; [apply storeInChunks_sameButQuota |].
    intros _ w''. apply bind_ext;
      [apply calculateSHA256FromChunks_sameButQuota | reflexivity]. }
  destruct Hq as [-> | (Hq1 & Hq2)].
  - destruct (negb (hasQuota (quotaAnswer P2))); [reflexivity |].
    unfold hashedUpdate in Htail. rewrite Htail. reflexivity.
  - rewrite Hq1, Hq2. cbn [negb].
    unfold hashedUpdate in Htail. rewrite Htail. reflexivity.
Qed.

End TwoPlatforms.

(** X6: an import reads the state it starts in only through the quota
    estimate.  On two platforms that differ at most in what the estimate
    answers, and whose quota checks give the same verdict, whether the
    import completes, what it throws, its events and its reports are the
    same from any two states. *)
Theorem importModel_independent_of_state
  (P1 P2 : Platform) (file : File) (w1 w2 : World) :
  sameButQuota P1 P2 ->
  sameVerdict (quotaAnswer P1) (quotaAnswer P2) ->
  outcome (importModel P1 file w1) = outcome (importModel P2 file w2) /\
  events (importModel P1 file w1) = events (importModel P2 file w2) /\
  progressReports (events (importModel P1 file w1))
    = progressReports (events (importModel P2 file w2)).
Proof.
  intros Hsame Hq.
  rewrite (importModel_sameButQuota P1 P2 Hsame file w1 Hq).
  destruct (importModel_uniform P2 file) as (r & t & rows & H).
  rewrite (H w1), (H w2). repeat split.
Qed.

Lemma importModel_independent_of_state_witness :
  outcome (importModel quietPlatform model100 initialWorld)
  = outcome (importModel quietPlatformLater model100
               (world (importModel quietPlatform my_model initialWorld))).
Proof.
  apply (importModel_independent_of_state quietPlatform quietPlatformLater).
  - repeat split.
  - right. split; reflexivity.
Defined.

(** X7: importing the same file again changes nothing, when the quota
    check of the second session gives the verdict of the first (its
    estimate is another one: it counts what the first session stored): the
    second session ends as the first did, with the same events, and
    leaves the state the first one left. *)
Theorem importModel_again_changes_nothing
  (P1 P2 : Platform) (file : File) (w : World) :
  sameButQuota P1 P2 ->
  sameVerdict (quotaAnswer P1) (quotaAnswer P2) ->
  let once := importModel P1 file w in
  let twice := importModel P2 file (world once) in
  outcome twice = outcome once /\
  events twice = events once /\
  world twice = world once.
Proof.
  intros Hsame Hq. cbv zeta.
  rewrite (importModel_sameButQuota P1 P2 Hsame file w Hq).
  destruct (importModel_uniform P2 file) as (r & t & rows & H).
  rewrite (H w). cbn [world fst snd]. rewrite (H (stateAfter t rows w)).
  cbn [outcome world events fst snd]. rewrite stateAfter_twice. repeat split.
Qed.

Lemma importModel_again_changes_nothing_witness :
  world (importModel quietPlatformLater model100
           (world (importModel quietPlatform model100 initialWorld)))
  = world (importModel quietPlatform model100 initialWorld).
Proof.
  apply (importModel_again_changes_nothing quietPlatform quietPlatformLater
           model100 initialWorld).
  - repeat split.
  - right. split; reflexivity.
Defined.

(** ** The chunk store after a session *)

Lemma rows_after_clear file rows stop w :
  Contiguous file 0 rows stop ->
  chunkStore (afterIterations file rows (cleared w)) = rows.
Proof.
  intros Hc. rewrite (afterIterations_chunkStore _ _ _ _ Hc); [reflexivity |].
  constructor.
Qed.

Lemma stored_bytes file rows :
  Contiguous file 0 rows (size (content file)) ->
  arrayBuffer (newBlob (idbGetAll rows)) = arrayBuffer (content file).
Proof.
  intros Hc. rewrite arrayBuffer_newBlob, (Contiguous_bytes _ _ _ _ Hc).
  rewrite N.sub_0_r. reflexivity.
Qed.

(** The state a completed import leaves, written out. *)
Lemma completed_import_state (P : Platform) (file : File) (w : World) :
  outcome (importModel P file w) = Return tt ->
  let digest := hexEncode (SHA256 P (arrayBuffer (content file))) in
  modelStatus (world (importModel P file w))
  = {| isImported := true;
       isLoaded := true;
       fileName := Some (name file);
       fileSize := Some (size (content file));
       sha256 := Some digest;
       importProgress := 100%Q;
       error := None;
       isVerified := isVerified (modelStatus w);
       verificationStatus := Some (classify digest) |} /\
  modelStore (world (importModel P file w)) = modelStore w /\
  Contiguous file 0 (chunkStore (world (importModel P file w)))
    (size (content file)).
Proof.
  intros Hdone. cbv zeta.
  pose proof (importModel_ImportRun P file w) as Hrun.
  rewrite Hdone in Hrun.
  inversion Hrun as [rows Hv Hq Hclear Hc Hget Hdig w1 digest Ho Hw Ht |].
  subst digest.
  assert (Hrows : chunkStore w1 = rows) by (apply (rows_after_clear _ _ _ _ Hc)).
  assert (Hver : isVerified (modelStatus w1) = isVerified (modelStatus w)).
  { pose proof (afterIterations_frame file rows
                  (cleared (withStatus startUpdate w))) as H.
    cbv zeta in H. destruct H as (_ & _ & _ & _ & _ & _ & _ & H & _).
    exact H. }
  assert (Hstore : modelStore w1 = modelStore w).
  { apply (afterIterations_frame file rows (cleared (withStatus startUpdate w))). }
  rewrite Hrows. unfold digestOf. rewrite (stored_bytes _ _ Hc).
  split; [| split; [exact Hstore | cbn [withStatus chunkStore]; rewrite Hrows; exact Hc]].
  unfold withStatus, spread, finalStatus, hashedUpdate, override.
  cbn [modelStatus isImported isLoaded fileName fileSize sha256 importProgress
       error isVerified verificationStatus
       u_isImported u_isLoaded u_fileName u_fileSize u_sha256 u_importProgress
       u_error u_isVerified u_verificationStatus].
  rewrite Hver, getProperty_digest. unfold classify.
  destruct (assoc _ KNOWN_MODEL_HASHES); reflexivity.
Qed.

(** X3: the digest a completed import records is the hash of the bytes of
    the file itself, and the chunk store holds exactly those bytes, in
    contiguous windows from offset 0 to the file size. *)
Theorem completed_import_hashes_the_file
  (P : Platform) (file : File) (w : World) :
  outcome (importModel P file w) = Return tt ->
  let w' := world (importModel P file w) in
  sha256 (modelStatus w')
    = Some (hexEncode (SHA256 P (arrayBuffer (content file)))) /\
  arrayBuffer (newBlob (idbGetAll (chunkStore w')))
    = arrayBuffer (content file) /\
  Contiguous file 0 (chunkStore w') (size (content file)).
Proof.
  intros Hdone. cbv zeta.
  destruct (completed_import_state P file w Hdone) as (Hs & _ & Hc).
  cbv zeta in Hs. rewrite Hs. cbn [sha256].
  split; [reflexivity |]. split; [apply stored_bytes; exact Hc | exact Hc].
Qed.

Lemma completed_import_hashes_the_file_witness :
  sha256 (modelStatus (world (importModel quietPlatform model100 initialWorld)))
  = Some (hexEncode (SHA256 quietPlatform (arrayBuffer (content model100)))).
Proof.
  apply (completed_import_hashes_the_file quietPlatform model100 initialWorld).
  exact importModel_quiet_completes.
Defined.

(** X4: the same bytes give the same digest and the same verification
    status, whatever the file is called and whatever was imported
    before. *)
Theorem digest_depends_on_bytes_only
  (P : Platform) (file1 file2 : File) (w1 w2 : World) :
  arrayBuffer (content file1) = arrayBuffer (content file2) ->
  outcome (importModel P file1 w1) = Return tt ->
  outcome (importModel P file2 w2) = Return tt ->
  sha256 (modelStatus (world (importModel P file1 w1)))
    = sha256 (modelStatus (world (importModel P file2 w2))) /\
  verificationStatus (modelStatus (world (importModel P file1 w1)))
    = verificationStatus (modelStatus (world (importModel P file2 w2))).
Proof.
  intros Hbytes H1 H2.
  destruct (completed_import_state P file1 w1 H1) as (Hs1 & _).
  destruct (completed_import_state P file2 w2 H2) as (Hs2 & _).
  cbv zeta in *. rewrite Hs1, Hs2, Hbytes. split; reflexivity.
Qed.

Lemma importModel_quiet_my_model :
  outcome (importModel quietPlatform my_model initialWorld) = Return tt.
Proof. lazy. reflexivity. Qed.

Lemma digest_depends_on_bytes_only_witness :
  sha256 (modelStatus (world (importModel quietPlatform model100 initialWorld)))
  = sha256 (modelStatus (world (importModel quietPlatform my_model initialWorld))).
Proof.
  apply (digest_depends_on_bytes_only quietPlatform model100 my_model
           initialWorld initialWorld).
  - reflexivity.
  - exact importModel_quiet_completes.
  - exact importModel_quiet_my_model.
Defined.

(** X5: hashing the file directly with [calculateSHA256] gives the digest
    the chunked import records. *)
Theorem calculateSHA256_agrees_with_import
  (P : Platform) (file : File) (w : World) (digest : string) :
  calculateSHA256 P false file = Return digest ->
  outcome (importModel P file w) = Return tt ->
  sha256 (modelStatus (world (importModel P file w))) = Some digest.
Proof.
  unfold calculateSHA256. intros Hcalc Hdone.
  destruct (completed_import_state P file w Hdone) as (Hs & _).
  cbv zeta in Hs. rewrite Hs. cbn [sha256].
  destruct (digestFault P); [discriminate |].
  injection Hcalc as <-. reflexivity.
Qed.

(** ** Failing at the quota check *)

Lemma validFile_not_invalid file :
  validFile file ->
  endsWith (name file) MODEL_VALIDATION.EXPECTED_EXTENSION = true /\
  ~ size (content file) < MODEL_VALIDATION.MIN_SIZE /\
  ~ MODEL_VALIDATION.MAX_SIZE < size (content file).
Proof. unfold validFile. intros (Hext & Hsize). repeat split; [exact Hext | lia | lia]. Qed.

(** X8: a valid file on a platform with no more than 2 GiB free (or
    without a working quota API) is refused before any database call:
    [importModel] throws the quota message, which carries the free space
    in whole GiB rounded down, and the chunk store is what it was. *)
Theorem insufficient_quota_touches_no_chunk
  (P : Platform) (file : File) (w : World) :
  validFile file ->
  hasQuota (quotaAnswer P) = false ->
  let r := importModel P file w in
  let q := quotaAnswer P in
  outcome r
    = Throw (ErrorObject
               (UI_MESSAGES.STORAGE_QUOTA_EXCEEDED ++ " (Available: "
                ++ numberToString ((qc_quota q - qc_usage q) / GiB)%Z
                ++ "GB)")) /\
  events r = [StatusMerged startUpdate;
              StatusMerged (failureStatus (ErrorObject (quotaMessage q)))] /\
  error (modelStatus (world r)) = Some (quotaMessage q) /\
  chunkStore (world r) = chunkStore w.
Proof.
  intros Hvalid Hq. cbv zeta.
  destruct (validFile_not_invalid file Hvalid) as (Hext & Hmin & Hmax).
  pose proof (importModel_ImportRun P file w) as Hrun.
  inversion Hrun as [rows Hv Hq' | stage e w1 t Hf Ho Hw Ht];
    [congruence |].
  destruct Hf; try congruence; try contradiction.
  cbn [app]. repeat split.
Qed.

Lemma insufficient_quota_touches_no_chunk_witness :
  outcome (importModel crowdedPlatform model100 initialWorld)
  = Throw (ErrorObject
             "Not enough storage space. Please free up space and try again. (Available: 1GB)").
Proof.
  destruct (insufficient_quota_touches_no_chunk crowdedPlatform model100
              initialWorld) as (Hout & _).
  - split; [reflexivity |]. split; intros H; discriminate H.
  - reflexivity.
  - cbv zeta in Hout. rewrite Hout. reflexivity.
Defined.

(** ** Failing after the chunk store was cleared *)

Lemma StageFails_after_clear P file w0 stage e w1 t :
  StageFails P file w0 stage e w1 t ->
  In (Db ClearChunks) t ->
  dbFault P ClearChunks = None ->
  exists stop failing,
    Contiguous file 0 (chunkStore w1) stop /\
    putCalls t = (chunkStore w1 ++ failing)%list /\
    ((stage = Writing /\ stop < size (content file) /\
      failing = [(stop, slice (content file) stop (stop + CHUNK_SIZE))]) \/
     (stage = Hashing /\ stop = size (content file) /\ failing = [])).
Proof.
  intros Hf Hin Hclear.
  destruct Hf; try (cbn in Hin; contradiction); try congruence.
  - exists o, [(o, slice (content file) o (o + CHUNK_SIZE))].
    rewrite (rows_after_clear _ _ _ _ H2).
    split; [assumption |]. split.
    + cbn [putCalls]. rewrite putCalls_app, putCalls_iterationEvents.
      reflexivity.
    + left. auto.
  - exists (size (content file)), [].
    rewrite (rows_after_clear _ _ _ _ H2).
    split; [assumption |]. split.
    + cbn [putCalls]. rewrite putCalls_app, putCalls_iterationEvents.
      reflexivity.
    + right. auto.
Qed.

(** X9: when an import fails after [clearChunks] went through, the chunk
    store no longer holds what it held: it holds the windows of the new
    file that were written before the failure (all of them when the
    failure is in hashing), while [isImported], [fileName] and [sha256]
    still describe the earlier import. *)
Theorem failure_after_clear_leaves_partial_chunks
  (P : Platform) (file : File) (w : World) (e : Thrown) :
  outcome (importModel P file w) = Throw e ->
  In (Db ClearChunks) (events (importModel P file w)) ->
  dbFault P ClearChunks = None ->
  let w' := world (importModel P file w) in
  (exists stop failing,
      Contiguous file 0 (chunkStore w') stop /\
      stop <= size (content file) /\
      putCalls (events (importModel P file w))
        = (chunkStore w' ++ failing)%list /\
      List.length failing = (if stop <? size (content file) then 1%nat else 0%nat)) /\
  isImported (modelStatus w') = isImported (modelStatus w) /\
  fileName (modelStatus w') = fileName (modelStatus w) /\
  sha256 (modelStatus w') = sha256 (modelStatus w).
Proof.
  intros Hthrow Hin Hclear. cbv zeta.
  pose proof (importModel_ImportRun P file w) as Hrun.
  rewrite Hthrow in Hrun.
  inversion Hrun as [| stage e' w1 t Hf Ho Hw Ht]; subst e'.
  rewrite <- Ht in Hin.
  assert (Hin' : In (Db ClearChunks) t).
  { destruct Hin as [Hin | Hin]; [discriminate |].
    apply in_app_or in Hin. destruct Hin as [Hin | [Hin | []]];
      [exact Hin | discriminate]. }
  pose proof (StageFails_identity _ _ _ _ _ _ _ Hf) as Hid.
  destruct (StageFails_after_clear _ _ _ _ _ _ _ Hf Hin' Hclear)
    as (stop & failing & Hc & Hputs & Hcase).
  unfold identity in Hid. injection Hid as H1 _ H3 _ H5 _.
  split.
  - exists stop, failing. cbn [withStatus chunkStore].
    split; [exact Hc |].
    split; [destruct Hcase as [(_ & Hlt & _) | (_ & -> & _)]; lia |].
    split.
    + cbn [putCalls]. rewrite putCalls_app. cbn [putCalls].
      rewrite app_nil_r. exact Hputs.
    + destruct Hcase as [(_ & Hlt & ->) | (_ & -> & ->)].
      * destruct (N.ltb_spec stop (size (content file))); [reflexivity | lia].
      * rewrite N.ltb_irrefl. reflexivity.
  - repeat split; assumption.
Qed.

Lemma failure_after_clear_leaves_partial_chunks_witness :
  isImported
    (modelStatus
       (world (importModel secondPutThrows my_model
                 (world (importModel quietPlatform model100 initialWorld)))))
  = true.
Proof.
  destruct (failure_after_clear_leaves_partial_chunks secondPutThrows my_model
              (world (importModel quietPlatform model100 initialWorld))
              (ErrorObject "QuotaExceededError"))
    as (_ & Himp & _).
  - lazy. reflexivity.
  - lazy. right. left. reflexivity.
  - reflexivity.
  - cbv zeta in Himp. rewrite Himp. lazy. reflexivity.
Defined.

(** ** The chunk store in reachable states *)

Lemma StageFails_chunkStore P file w0 stage e w1 t :
  StageFails P file w0 stage e w1 t ->
  chunkStore w1 = chunkStore w0 \/
  exists stop, Contiguous file 0 (chunkStore w1) stop.
Proof.
  destruct 1; try (left; reflexivity); right.
  - exists o. rewrite (rows_after_clear _ _ _ _ H2). assumption.
  - exists (size (content file)). rewrite (rows_after_clear _ _ _ _ H2).
    assumption.
Qed.

Lemma ImportRun_chunkStore P file w r w' t :
  ImportRun P file w r w' t ->
  chunkStore w' = chunkStore w \/
  exists stop, Contiguous file 0 (chunkStore w') stop.
Proof.
  destruct 1 as [rows Hv Hq Hclear Hc Hget Hdig w1 digest | stage e w1 t Hf].
  - right. exists (size (content file)). subst w1.
    cbn [withStatus chunkStore]. rewrite (rows_after_clear _ _ _ _ Hc).
    exact Hc.
  - cbn [withStatus chunkStore].
    apply StageFails_chunkStore in Hf. exact Hf.
Qed.

Lemma tryCatch_bind {A B : Type} (m : M A) (k : A -> M B)
  (h : Thrown -> M B) (w : World) :
  tryCatch (bind m k) h w =
  match m w with
  | (Return a, w1, t1) =>
      let '(r, w2, t2) := tryCatch (k a) h w1 in (r, w2, (t1 ++ t2)%list)
  | (Throw e, w1, t1) =>
      let '(r, w2, t2) := h e w1 in (r, w2, (t1 ++ t2)%list)
  | (OutOfFuel, w1, t1) => (OutOfFuel, w1, t1)
  end.
Proof.
  unfold tryCatch, bind.
  destruct (m w) as [[[a | e |] w1] t1]; try reflexivity.
  destruct (k a w1) as [[[b | e |] w2] t2]; try reflexivity.
  destruct (h e w2) as [[r w3] t3]. rewrite app_assoc. reflexivity.
Qed.

Lemma catchBlock_run (e : Thrown) (w : World) :
  catchBlock e w
  = (Throw e, withStatus (failureStatus e) w, [StatusMerged (failureStatus e)]).
Proof. reflexivity. Qed.

Section StepwiseFacts.

Variable P : Platform.

Lemma guarded_run (m : M Session) (w : World) :
  guarded m w =
  match m w with
  | (Throw e, w1, t1) =>
      (Return (Settled (Throw e)), withStatus (failureStatus e) w1,
       (t1 ++ [StatusMerged (failureStatus e)])%list)
  | other => other
  end.
Proof.
  unfold guarded, tryCatch.
  destruct (m w) as [[[s | e |] w1] t1]; reflexivity.
Qed.

Lemma schedule_settled (n : nat) (r : Completion unit) (w : World) :
  schedule P (repeat (Continue 0) n) [Settled r] w
  = (Return [Settled r], w, []).
Proof.
  induction n as [| n IH]; [reflexivity |].
  cbn [repeat schedule]. unfold bind at 1. cbn [act nth_error ret].
  rewrite IH. reflexivity.
Qed.

Lemma schedule_continue (n : nat) (at_ : Suspended) (w : World) :
  schedule P (repeat (Continue 0) (S n)) [Pending at_] w
  = match resume P at_ w with
    | (Return s, w1, t1) =>
        let '(r, w2, t2) := schedule P (repeat (Continue 0) n) [s] w1 in
        (r, w2, (t1 ++ t2)%list)
    | (Throw e, w1, t1) => (Throw e, w1, t1)
    | (OutOfFuel, w1, t1) => (OutOfFuel, w1, t1)
    end.
Proof.
  cbn [repeat schedule]. unfold bind at 1. cbn [act nth_error].
  unfold bind at 1.
  destruct (resume P at_ w) as [[[s | e |] w1] t1]; cbn [ret updateAt];
    try reflexivity.
  destruct (schedule P (repeat (Continue 0) n) [s] w1) as [[r w2] t2].
  rewrite app_nil_r. reflexivity.
Qed.

Lemma hashAndFinish_run (file : File) (w : World) :
  hashAndFinish P file w =
  match dbFault P GetAllChunks, digestFault P with
  | Some e, _ | None, Some e => (Throw e, w, [Db GetAllChunks])
  | None, None =>
      let sha256 := digestOf P (chunkStore w) in
      (Return tt,
       withStatus (finalStatus file sha256) (withStatus hashedUpdate w),
       [Db GetAllChunks; StatusMerged hashedUpdate;
        StatusMerged (finalStatus file sha256)])
  end.
Proof.
  unfold hashAndFinish. unfold bind at 1.
  rewrite calculateSHA256FromChunks_run.
  destruct (dbFault P GetAllChunks); [reflexivity |].
  destruct (digestFault P); reflexivity.
Qed.

Lemma resume_hash (file : File) (w : World) :
  resume P (AwaitHash file) w =
  let '(r, w', t) := tryCatch (hashAndFinish P file) catchBlock w in
  (Return (Settled r), w', t).
Proof.
  unfold resume. rewrite guarded_run. unfold tryCatch at 1.
  rewrite hashAndFinish_run. unfold bind at 1.
  rewrite calculateSHA256FromChunks_run.
  destruct (dbFault P GetAllChunks); [reflexivity |].
  destruct (digestFault P); reflexivity.
Qed.

Lemma resume_put (file : File) (o : N) (w : World) :
  resume P (AwaitPut file o) w =
  let chunk := slice (content file) o (o + CHUNK_SIZE) in
  match dbFault P (PutChunk chunk o) with
  | Some e =>
      (Return (Settled (Throw e)), withStatus (failureStatus e) w,
       [Db (PutChunk chunk o); StatusMerged (failureStatus e)])
  | None =>
      (Return (loopTest file (o + size chunk)), afterIteration file o w,
       [Db (PutChunk chunk o);
        StatusMerged (progressUpdate (o + size chunk) (size (content file)))])
  end.
Proof.
  unfold resume. rewrite guarded_run. cbv zeta. unfold bind at 1.
  rewrite storeModelChunk_run.
  destruct (dbFault P (PutChunk _ o)); reflexivity.
Qed.

Lemma fromLoop_step (fuel : nat) (file : File) (o : N) (w : World) :
  o < size (content file) ->
  fromLoop P (S fuel) file o w =
  let chunk := slice (content file) o (o + CHUNK_SIZE) in
  match dbFault P (PutChunk chunk o) with
  | Some e =>
      (Throw e, withStatus (failureStatus e) w,
       [Db (PutChunk chunk o); StatusMerged (failureStatus e)])
  | None =>
      let '(r, w', t) :=
        fromLoop P fuel file (o + size chunk) (afterIteration file o w) in
      (r, w',
       Db (PutChunk chunk o)
       :: StatusMerged (progressUpdate (o + size chunk) (size (content file)))
       :: t)
  end.
Proof.
  intros Hlt. unfold fromLoop. rewrite !tryCatch_bind.
  rewrite writeLoop_step by exact Hlt. cbv zeta.
  destruct (dbFault P (PutChunk _ o)); [reflexivity |].
  destruct (writeLoop P fuel file _ _) as [[[[] | e |] w1] t1];
    try reflexivity.
  destruct (tryCatch (hashAndFinish P file) catchBlock w1) as [[r w2] t2].
  reflexivity.
Qed.

Lemma fromLoop_exit (fuel : nat) (file : File) (o : N) (w : World) :
  size (content file) <= o ->
  fromLoop P fuel file o w = tryCatch (hashAndFinish P file) catchBlock w.
Proof.
  intros Hge. unfold fromLoop. rewrite tryCatch_bind.
  rewrite writeLoop_exit by exact Hge.
  destruct (tryCatch (hashAndFinish P file) catchBlock w) as [[r w2] t2].
  reflexivity.
Qed.

Lemma loopTest_inside (file : File) (o : N) :
  o < size (content file) -> loopTest file o = Pending (AwaitPut file o).
Proof.
  intros H. unfold loopTest.
  destruct (N.ltb_spec o (size (content file))); [reflexivity | lia].
Qed.

Lemma loopTest_outside (file : File) (o : N) :
  size (content file) <= o -> loopTest file o = Pending (AwaitHash file).
Proof.
  intros H. unfold loopTest.
  destruct (N.ltb_spec o (size (content file))); [lia | reflexivity].
Qed.

Lemma schedule_hash (n : nat) (file : File) (w : World) :
  schedule P (repeat (Continue 0) (S n)) [Pending (AwaitHash file)] w
  = settled (tryCatch (hashAndFinish P file) catchBlock w).
Proof.
  rewrite schedule_continue, resume_hash.
  destruct (tryCatch (hashAndFinish P file) catchBlock w) as [[r w'] t].
  rewrite schedule_settled, app_nil_r. reflexivity.
Qed.

(** A call that goes on without interruption from the test of the loop
    does what the loop and steps 4 to 6 do. *)
Lemma schedule_fromLoop (file : File) (fuel : nat) :
  forall (o : N) (w : World) (n : nat),
    size (content file) - o <= N.of_nat fuel * CHUNK_SIZE ->
    (fuel < n)%nat ->
    schedule P (repeat (Continue 0) n) [loopTest file o] w
    = settled (fromLoop P fuel file o w).
Proof.
  induction fuel as [| fuel IH]; intros o w n Hfuel Hn.
  - destruct n as [| n]; [lia |].
    rewrite loopTest_outside, fromLoop_exit by lia. apply schedule_hash.
  - destruct n as [| n]; [lia |].
    destruct (N.lt_ge_cases o (size (content file))) as [Hlt | Hge].
    2:{ rewrite loopTest_outside, fromLoop_exit by lia. apply schedule_hash. }
    rewrite loopTest_inside, fromLoop_step by exact Hlt.
    rewrite schedule_continue, resume_put. cbv zeta.
    destruct (dbFault P (PutChunk _ o)).
    + rewrite schedule_settled. reflexivity.
    + pose proof (slice_window_size (content file) o Hlt) as Hs.
      rewrite IH.
      * destruct (fromLoop P fuel file _ _) as [[r w'] t]. reflexivity.
      * rewrite Hs. pose proof CHUNK_SIZE_pos. lia.
      * lia.
Qed.

Lemma begin_run (file : File) (w : World) :
  begin file w =
  let w0 := withStatus startUpdate w in
  let refuse := fun e =>
    (Return (Settled (Throw e)), withStatus (failureStatus e) w0,
     [StatusMerged startUpdate; StatusMerged (failureStatus e)]) in
  if negb (endsWith (name file) MODEL_VALIDATION.EXPECTED_EXTENSION) then
    refuse (ErrorObject UI_MESSAGES.INVALID_FILE_TYPE)
  else if size (content file) <? MODEL_VALIDATION.MIN_SIZE then
    refuse (ErrorObject FILE_TOO_SMALL)
  else if MODEL_VALIDATION.MAX_SIZE <? size (content file) then
    refuse (ErrorObject UI_MESSAGES.FILE_TOO_LARGE)
  else (Return (Pending (AwaitQuota file)), w0, [StatusMerged startUpdate]).
Proof.
  unfold begin. rewrite guarded_run. unfold bind at 1.
  rewrite setModelStatus_run. cbv zeta.
  destruct (negb (endsWith (name file) MODEL_VALIDATION.EXPECTED_EXTENSION));
    [reflexivity |].
  destruct (size (content file) <? MODEL_VALIDATION.MIN_SIZE); [reflexivity |].
  destruct (MODEL_VALIDATION.MAX_SIZE <? size (content file)); reflexivity.
Qed.

Lemma resume_quota (file : File) (w : World) :
  resume P (AwaitQuota file) w =
  if negb (hasQuota (quotaAnswer P)) then
    let e := ErrorObject (quotaMessage (quotaAnswer P)) in
    (Return (Settled (Throw e)), withStatus (failureStatus e) w,
     [StatusMerged (failureStatus e)])
  else (Return (Pending (AwaitClear file)), w, []).
Proof.
  unfold resume. rewrite guarded_run. unfold bind at 1.
  rewrite checkStorageQuota_run.
  destruct (negb (hasQuota (quotaAnswer P))); reflexivity.
Qed.

Lemma resume_clear (file : File) (w : World) :
  resume P (AwaitClear file) w =
  match dbFault P ClearChunks with
  | Some e =>
      (Return (Settled (Throw e)), withStatus (failureStatus e) w,
       [Db ClearChunks; StatusMerged (failureStatus e)])
  | None => (Return (loopTest file 0), cleared w, [Db ClearChunks])
  end.
Proof.
  unfold resume. rewrite guarded_run. unfold clearChunks.
  unfold bind at 1 2. rewrite db_run.
  destruct (dbFault P ClearChunks); reflexivity.
Qed.

(** What [importModel] does once the file and the quota were accepted. *)
Lemma importModel_fromLoop (file : File) (w : World) :
  validFile file ->
  hasQuota (quotaAnswer P) = true ->
  importModel P file w =
  let w0 := withStatus startUpdate w in
  match dbFault P ClearChunks with
  | Some e =>
      (Throw e, withStatus (failureStatus e) w0,
       [StatusMerged startUpdate; Db ClearChunks;
        StatusMerged (failureStatus e)])
  | None =>
      let '(r, w', t) := fromLoop P (loopFuel file) file 0 (cleared w0) in
      (r, w', StatusMerged startUpdate :: Db ClearChunks :: t)
  end.
Proof.
  intros Hv Hq. destruct (validFile_not_invalid file Hv) as (Hext & Hmin & Hmax).
  unfold importModel, importSteps.
  change (fun error : Thrown =>
            bind (setModelStatus (failureStatus error)) (fun _ => throw error))
    with catchBlock.
  rewrite tryCatch_bind, setModelStatus_run. fold startUpdate.
  rewrite Hext. cbn [negb].
  destruct (N.ltb_spec (size (content file)) MODEL_VALIDATION.MIN_SIZE);
    [contradiction |].
  destruct (N.ltb_spec MODEL_VALIDATION.MAX_SIZE (size (content file)));
    [contradiction |].
  rewrite tryCatch_bind, checkStorageQuota_run, Hq. cbn [negb].
  rewrite tryCatch_bind, storeInChunks_run. cbv zeta.
  destruct (dbFault P ClearChunks); [reflexivity |].
  unfold fromLoop. rewrite tryCatch_bind.
  destruct (writeLoop P (loopFuel file) file 0 _) as [[[[] | e |] w1] t1];
    try reflexivity.
  fold hashedUpdate.
  change (bind (calculateSHA256FromChunks P) _) with (hashAndFinish P file).
  destruct (tryCatch (hashAndFinish P file) catchBlock w1) as [[r w2] t2].
  reflexivity.
Qed.

(** A call of [importModel] that goes on without interruption is
    [importModel] run to its end. *)
Lemma schedule_importModel (file : File) (w : World) (n : nat) :
  (loopFuel file + 2 < n)%nat ->
  schedule P (Call file :: repeat (Continue 0) n) [] w
  = settled (importModel P file w).
Proof.
  intros Hn. destruct n as [| [| n]]; try lia.
  pose proof (importModel_ImportRun P file w) as Hrun.
  cbn [schedule act app]. unfold bind at 1 2. rewrite begin_run. cbv zeta.
  destruct (endsWith (name file) MODEL_VALIDATION.EXPECTED_EXTENSION) eqn:Hext;
    cbn [negb].
  2:{ cbn [ret]. rewrite schedule_settled.
      rewrite importModel_of_steps. unfold importSteps. unfold bind at 1.
      rewrite setModelStatus_run, Hext. reflexivity. }
  destruct (N.ltb_spec (size (content file)) MODEL_VALIDATION.MIN_SIZE)
    as [Hmin | Hmin].
  { cbn [ret]. rewrite schedule_settled.
    rewrite importModel_of_steps. unfold importSteps. unfold bind at 1.
    rewrite setModelStatus_run, Hext.
    destruct (N.ltb_spec (size (content file)) MODEL_VALIDATION.MIN_SIZE);
      [reflexivity | lia]. }
  destruct (N.ltb_spec MODEL_VALIDATION.MAX_SIZE (size (content file)))
    as [Hmax | Hmax].
  { cbn [ret]. rewrite schedule_settled.
    rewrite importModel_of_steps. unfold importSteps. unfold bind at 1.
    rewrite setModelStatus_run, Hext.
    destruct (N.ltb_spec (size (content file)) MODEL_VALIDATION.MIN_SIZE);
      [lia |].
    destruct (N.ltb_spec MODEL_VALIDATION.MAX_SIZE (size (content file)));
      [reflexivity | lia]. }
  assert (Hv : validFile file) by (apply endsWith_MIN_MAX; assumption).
  cbn [ret app]. rewrite schedule_continue, resume_quota.
  destruct (hasQuota (quotaAnswer P)) eqn:Hq; cbn [negb].
  2:{ rewrite schedule_settled.
      rewrite importModel_of_steps. unfold importSteps. unfold bind at 1.
      rewrite setModelStatus_run, Hext.
      destruct (N.ltb_spec (size (content file)) MODEL_VALIDATION.MIN_SIZE);
        [lia |].
      destruct (N.ltb_spec MODEL_VALIDATION.MAX_SIZE (size (content file)));
        [lia |].
      cbn [negb]. unfold bind at 1. rewrite checkStorageQuota_run, Hq.
      reflexivity. }
  rewrite (importModel_fromLoop file w Hv Hq). cbv zeta.
  rewrite schedule_continue, resume_clear.
  destruct (dbFault P ClearChunks).
  { rewrite schedule_settled. reflexivity. }
  rewrite (schedule_fromLoop file (loopFuel file) 0 _ n (loopFuel_enough file))
    by lia.
  destruct (fromLoop P (loopFuel file) file 0 _) as [[r w'] t]. reflexivity.
Qed.

End StepwiseFacts.

(** No file has a first window of bytes 1 followed by a second window of
    bytes 0 taken from files that are all 1 and all 0. *)
Lemma two_files_not_contiguous (o : N) (rest : list (N * Blob)) :
  ~ exists file stop,
      Contiguous file 0
        ((0, slice (content other100) 0 (0 + CHUNK_SIZE))
         :: (o, slice (content model100) o (o + CHUNK_SIZE)) :: rest) stop.
Proof.
  intros (file & stop & Hc).
  inversion Hc as [| o0 chunk rows stop0 Hlt Hchunk Hb Hrest]; subst.
  inversion Hrest as [| o1 chunk1 rows1 stop1 Hlt1 Hchunk1 Hb1 Hrest1]; subst.
  clear Hc Hrest Hrest1 Hb Hb1.
  apply (f_equal byteAt) in Hchunk, Hchunk1.
  cbn [slice byteAt content other100 model100 ones zeros] in Hchunk, Hchunk1.
  set (k := N.min (0 + size (slice (content other100) 0 (0 + CHUNK_SIZE)))
                  (size (content file))) in *.
  apply (f_equal (fun f => f k)) in Hchunk.
  apply (f_equal (fun f => f 0)) in Hchunk1.
  cbv beta in Hchunk, Hchunk1.
  rewrite N.min_0_l, N.add_0_l in Hchunk. rewrite N.add_0_r in Hchunk1.
  assert (E : x01 = x00) by (rewrite Hchunk, Hchunk1; reflexivity).
  discriminate E.
Qed.

Lemma overlappingImports_chunkStore :
  chunkStore (world (schedule quietPlatform overlappingImports [] initialWorld))
  = [ (0, slice (content other100) 0 (0 + CHUNK_SIZE));
      (16 * MiB, slice (content model100) (16 * MiB) (16 * MiB + CHUNK_SIZE)) ].
Proof. lazy. reflexivity. Qed.



(** ** Where the chunks lie *)

Lemma Contiguous_layout (file : File) o rows stop :
  Contiguous file o rows stop ->
  forall j, o = N.of_nat j * CHUNK_SIZE ->
  forall k row, nth_error rows k = Some row ->
    fst row = N.of_nat (j + k) * CHUNK_SIZE /\
    fst row < size (content file) /\
    size (snd row)
      = N.min CHUNK_SIZE (size (content file) - N.of_nat (j + k) * CHUNK_SIZE).
Proof.
  induction 1 as [o | o chunk rows stop Hlt Hc Hb Hrest IH];
    intros j Ho k row Hnth.
  - destruct k; discriminate.
  - destruct k as [| k]; cbn [nth_error] in Hnth.
    + injection Hnth as <-. cbn [fst snd]. rewrite Nat.add_0_r, <- Ho.
      subst chunk. rewrite slice_window_size by assumption. auto.
    + assert (Hfull : size chunk = CHUNK_SIZE).
      { inversion Hrest; subst; [destruct k; discriminate |].
        rewrite slice_window_size in * by assumption. lia. }
      replace (j + S k)%nat with (S j + k)%nat by lia.
      apply (IH (S j)); [| exact Hnth]. rewrite Hfull, Ho. lia.
Qed.

Lemma Contiguous_count (file : File) o rows stop :
  Contiguous file o rows stop ->
  size (content file) <= stop ->
  o <= size (content file) ->
  size (content file) - o <= N.of_nat (List.length rows) * CHUNK_SIZE
    < size (content file) - o + CHUNK_SIZE.
Proof.
  induction 1 as [o | o chunk rows stop Hlt Hc Hb Hrest IH];
    intros Hstop Ho.
  - cbn [List.length]. pose proof CHUNK_SIZE_pos. lia.
  - pose proof (Contiguous_bounds _ _ _ _ Hrest) as (Hle & _ & _).
    subst chunk. rewrite slice_window_size in * by assumption.
    cbn [List.length]. rewrite Nat2N.inj_succ, N.mul_succ_l.
    assert (Hnext : o + N.min CHUNK_SIZE (size (content file) - o)
                    <= size (content file)) by lia.
    specialize (IH Hstop Hnext).
    assert (Hn : N.of_nat (List.length rows) * CHUNK_SIZE = 0
                 \/ CHUNK_SIZE <= N.of_nat (List.length rows) * CHUNK_SIZE).
    { destruct (N.eq_0_gt_0_cases (N.of_nat (List.length rows))) as [-> | Hm];
        [left; reflexivity | right].
      rewrite <- (N.mul_1_l CHUNK_SIZE) at 1.
      apply N.mul_le_mono_r. lia. }
    lia.
Qed.

(** X11: a completed import wrote the file in ceil(size / 16 MiB) chunks;
    the k-th chunk (from 0) is keyed [k * CHUNK_SIZE] and holds
    [min (CHUNK_SIZE, size - k * CHUNK_SIZE)] bytes, so only the last one
    can be shorter than 16 MiB. *)
Theorem completed_import_chunk_layout
  (P : Platform) (file : File) (w : World) :
  outcome (importModel P file w) = Return tt ->
  let rows := chunkStore (world (importModel P file w)) in
  putCalls (events (importModel P file w)) = rows /\
  N.of_nat (List.length rows)
    = (size (content file) + CHUNK_SIZE - 1) / CHUNK_SIZE /\
  forall k row,
    nth_error rows k = Some row ->
    fst row = N.of_nat k * CHUNK_SIZE /\
    size (snd row)
      = N.min CHUNK_SIZE (size (content file) - N.of_nat k * CHUNK_SIZE).
Proof.
  intros Hdone. cbv zeta.
  destruct (completed_import_state P file w Hdone) as (_ & _ & Hc).
  split; [| split].
  - pose proof (importModel_ImportRun P file w) as Hrun.
    rewrite Hdone in Hrun.
    inversion Hrun as [rows Hv Hq Hclear Hc' Hget Hdig w1 digest Ho Hw Ht |].
    subst w1. cbn [withStatus chunkStore putCalls].
    rewrite (rows_after_clear _ _ _ _ Hc').
    rewrite putCalls_app, putCalls_iterationEvents. cbn. apply app_nil_r.
  - pose proof (Contiguous_count _ _ _ _ Hc (N.le_refl _) (N.le_0_l _)) as Hn.
    rewrite N.sub_0_r in Hn. pose proof CHUNK_SIZE_pos as Hpos.
    set (n := N.of_nat _) in *. rewrite (N.mul_comm n) in Hn.
    apply N.div_unique
      with (r := size (content file) + CHUNK_SIZE - 1 - CHUNK_SIZE * n); lia.
  - intros k row Hnth.
    destruct (Contiguous_layout _ _ _ _ Hc 0%nat eq_refl k row Hnth)
      as (Hkey & _ & Hsize).
    auto.
Qed.

Lemma completed_import_chunk_layout_witness :
  N.of_nat (List.length
              (chunkStore (world (importModel quietPlatform model100
                                    initialWorld)))) = 7.
Proof.
  destruct (completed_import_chunk_layout quietPlatform model100 initialWorld)
    as (_ & Hn & _).
  - exact importModel_quiet_completes.
  - cbv zeta in Hn. rewrite Hn. reflexivity.
Defined.

(** ** When an import completes *)

(** X1: [importModel] completes if the file is a [.gguf] of 100 MiB to
    15 GiB, more than 2 GiB of quota are free, and no database call and
    no hashing step throws, however large the file is compared with the
    free space; it then leaves the final status written out below. *)
Theorem importModel_completes (P : Platform) (file : File) (w : World) :
  validFile file ->
  hasQuota (quotaAnswer P) = true ->
  (forall c, dbFault P c = None) ->
  digestFault P = None ->
  let digest := hexEncode (SHA256 P (arrayBuffer (content file))) in
  outcome (importModel P file w) = Return tt /\
  modelStatus (world (importModel P file w))
  = {| isImported := true;
       isLoaded := true;
       fileName := Some (name file);
       fileSize := Some (size (content file));
       sha256 := Some digest;
       importProgress := 100%Q;
       error := None;
       isVerified := isVerified (modelStatus w);
       verificationStatus := Some (classify digest) |}.
Proof.
  intros Hvalid Hq Hdb Hdig. cbv zeta.
  assert (Hdone : outcome (importModel P file w) = Return tt).
  { destruct (validFile_not_invalid file Hvalid) as (Hext & Hmin & Hmax).
    pose proof (importModel_ImportRun P file w) as Hrun.
    inversion Hrun as [rows | stage e w1 t Hf Ho Hw Ht]; [reflexivity |].
    exfalso. destruct Hf; try congruence; try contradiction.
    match goal with H : _ \/ _ |- _ => destruct H as [H | [_ H]] end;
      congruence. }
  split; [exact Hdone |].
  apply (completed_import_state P file w Hdone).
Qed.

Lemma validFile_model100 : validFile model100.
Proof. split; [reflexivity |]. split; intros H; discriminate H. Qed.

Lemma importModel_completes_witness :
  outcome (importModel quietPlatform model100 initialWorld) = Return tt.
Proof.
  apply (importModel_completes quietPlatform model100 initialWorld).
  - exact validFile_model100.
  - reflexivity.
  - reflexivity.
  - reflexivity.
Defined.

(** ** Progress stays in range *)

Lemma reportsOf_range file rows stop p :
  Contiguous file 0 rows stop ->
  In p (reportsOf file rows) -> (0 <= p <= 80)%Q.
Proof. intros Hc. apply (NonDecreasing_from_zero _ _ _ Hc). Qed.

(** X12: every progress value a session reports lies between 0 and 100. *)
Theorem progress_between_0_and_100
  (P : Platform) (file : File) (w : World) (p : Q) :
  In p (progressReports (events (importModel P file w))) ->
  (0 <= p <= 100)%Q.
Proof.
  pose proof (importModel_ImportRun P file w) as Hrun.
  inversion Hrun as [rows Hv Hq Hclear Hc Hget Hdig w1 digest Ho Hw Ht
                    | stage e w1 t Hf Ho Hw Ht].
  - cbn [progressReports startUpdate u_importProgress].
    rewrite progressReports_app, progressReports_iterationEvents.
    fold (reportsOf file rows). cbn [progressReports hashedUpdate finalStatus
                                    u_importProgress].
    intros [<- | Hin]; [split; discriminate |].
    apply in_app_or in Hin. destruct Hin as [Hin | [<- | [<- | []]]];
      try (split; discriminate).
    destruct (reportsOf_range _ _ _ _ Hc Hin) as [H0 H80].
    split; [exact H0 |]. apply Qle_trans with 80%Q; [exact H80 | discriminate].
  - destruct (StageFails_reports _ _ _ _ _ _ _ Hf) as (rows & o & Hc & Hrep).
    cbn [progressReports startUpdate u_importProgress].
    rewrite progressReports_app, Hrep.
    cbn [progressReports failureStatus u_importProgress].
    intros [<- | Hin]; [split; discriminate |].
    apply in_app_or in Hin. destruct Hin as [Hin | [<- | []]];
      try (split; discriminate).
    destruct (reportsOf_range _ _ _ _ Hc Hin) as [H0 H80].
    split; [exact H0 |]. apply Qle_trans with 80%Q; [exact H80 | discriminate].
Qed.

Lemma progress_between_0_and_100_witness :
  (0 <= 0 <= 100)%Q.
Proof.
  apply (progress_between_0_and_100 quietPlatform model_txt initialWorld).
  left. reflexivity.
Defined.

(** ** ModelImport.tsx and App.tsx *)

Lemma sameString_true a b : sameString a b = true <-> a = Some b.
Proof.
  destruct a as [s |]; cbn; [| split; discriminate].
  rewrite String.eqb_eq. split; congruence.
Qed.

Lemma sameNumber_true a b : sameNumber a b = true <-> a = Some b.
Proof.
  destruct a as [n |]; cbn; [| split; discriminate].
  rewrite N.eqb_eq. split; congruence.
Qed.

Lemma duplicate_check s file :
  isImported s && sameString (fileName s) (name file)
  && sameNumber (fileSize s) (size (content file)) = true
  <-> alreadyImported s file.
Proof.
  unfold alreadyImported.
  rewrite !andb_true_iff, sameString_true, sameNumber_true. tauto.
Qed.

Lemma handleFileSelect_cases (s : ModelStatus) (file : File) :
  (invalidInput file /\
   exists t, handleFileSelect s file = (None, [t]) /\
             toast_destructive t = true) \/
  (validFile file /\ alreadyImported s file /\
   handleFileSelect s file = (None, [alreadyImportedToast])) \/
  (validFile file /\ ~ alreadyImported s file /\
   handleFileSelect s file = (Some file, [])).
Proof.
  unfold handleFileSelect, validFile, invalidInput.
  change ".gguf" with MODEL_VALIDATION.EXPECTED_EXTENSION.
  change (100 * 1024 * 1024) with MODEL_VALIDATION.MIN_SIZE.
  change (15 * 1024 * 1024 * 1024) with MODEL_VALIDATION.MAX_SIZE.
  pose proof (duplicate_check s file) as Hdup.
  destruct (endsWith (name file) MODEL_VALIDATION.EXPECTED_EXTENSION);
    cbn [negb].
  2:{ left. split; [auto |]. eexists. split; reflexivity. }
  destruct (N.ltb_spec (size (content file)) MODEL_VALIDATION.MIN_SIZE).
  { left. split; [auto |]. eexists. split; reflexivity. }
  destruct (N.ltb_spec MODEL_VALIDATION.MAX_SIZE (size (content file))).
  { left. split; [auto |]. eexists. split; reflexivity. }
  right.
  destruct (isImported s && sameString (fileName s) (name file)
            && sameNumber (fileSize s) (size (content file))).
  - left. split; [auto |]. split; [apply Hdup; reflexivity | reflexivity].
  - right. split; [auto |]. split; [| reflexivity].
    intros Ha. apply Hdup in Ha. discriminate.
Qed.

(** X18: [handleFileSelect] selects a file exactly when step 1 of
    [importModel] accepts it and it is not the file already imported
    (same name and size); otherwise it selects nothing and shows one
    toast, a destructive one when the file is invalid. *)
Theorem handleFileSelect_selects_valid_new_files
  (s : ModelStatus) (file : File) :
  (fst (handleFileSelect s file) = Some file <->
   validFile file /\ ~ alreadyImported s file) /\
  (fst (handleFileSelect s file) = Some file \/
   fst (handleFileSelect s file) = None /\
   List.length (snd (handleFileSelect s file)) = 1%nat) /\
  (invalidInput file ->
   exists t, handleFileSelect s file = (None, [t]) /\
             toast_destructive t = true).
Proof.
  destruct (handleFileSelect_cases s file)
    as [(Hinv & t & Heq & Ht) | [(Hv & Hdup & Heq) | (Hv & Hnew & Heq)]];
    rewrite Heq; cbn [fst snd List.length].
  - pose proof (invalidInput_not_valid file Hinv) as Hnv.
    split; [split; [discriminate | tauto] |].
    split; [right; auto |]. intros _. exists t. auto.
  - pose proof (fun H => invalidInput_not_valid file H Hv) as Hni.
    split; [split; [discriminate | tauto] |].
    split; [right; auto |]. intros Hinv. contradiction.
  - pose proof (fun H => invalidInput_not_valid file H Hv) as Hni.
    split; [split; auto |].
    split; [left; reflexivity |]. intros Hinv. contradiction.
Qed.

Lemma handleFileSelect_imported (s : ModelStatus) (file : File) :
  validFile file ->
  (alreadyImported s file ->
   handleFileSelect s file = (None, [alreadyImportedToast])) /\
  (~ alreadyImported s file -> handleFileSelect s file = (Some file, [])).
Proof.
  intros Hv.
  destruct (handleFileSelect_cases s file)
    as [(Hinv & _) | [(_ & Hdup & Heq) | (_ & Hnew & Heq)]].
  - exfalso. eapply invalidInput_not_valid; eassumption.
  - split; [intros _; exact Heq | contradiction].
  - split; [contradiction | intros _; exact Heq].
Qed.


(** X20: what the main screen depends on: after a completed import the
    model counts as ready; after a failed one it does not, even when an
    earlier import had completed; after a reset it does not. *)
Theorem modelReady_follows_last_session (P : Platform) (file : File) (w : World) :
  (outcome (importModel P file w) = Return tt ->
   modelReady (modelStatus (world (importModel P file w))) = true) /\
  (forall e, outcome (importModel P file w) = Throw e ->
   modelReady (modelStatus (world (importModel P file w))) = false) /\
  modelReady (modelStatus (world (resetModel P w))) = false.
Proof.
  split; [| split].
  - intros Hdone.
    destruct (completed_import_state P file w Hdone) as (Hs & _).
    cbv zeta in Hs. rewrite Hs. unfold modelReady.
    cbn [isImported verificationStatus]. unfold classify.
    match goal with
    | |- context [assoc ?d ?table] => destruct (assoc d table)
    end; reflexivity.
  - intros e Hthrow.
    pose proof (importModel_ImportRun P file w) as Hrun.
    rewrite Hthrow in Hrun.
    inversion Hrun as [| stage e' w1 t Hf Ho Hw Ht].
    unfold modelReady. cbn. apply andb_false_r.
  - rewrite resetModel_run. reflexivity.
Qed.


(** ** Reset, and the model table *)

(** X13: [resetModel] always returns normally, also when [deleteModel]
    throws; it puts the status back to exactly the value the store starts
    with, deletes the model row unless the deletion threw, and running it
    again changes nothing. *)
Theorem resetModel_restores_initial_status (P : Platform) (w : World) :
  outcome (resetModel P w) = Return tt /\
  modelStatus (world (resetModel P w)) = initialStatus /\
  modelStore (world (resetModel P w))
    = match dbFault P DeleteModel with
      | Some _ => modelStore w
      | None => None
      end /\
  world (resetModel P (world (resetModel P w))) = world (resetModel P w).
Proof.
  rewrite !resetModel_run. cbn [outcome world fst snd modelStatus modelStore].
  repeat split; destruct (dbFault P DeleteModel); reflexivity.
Qed.

Lemma storeModel_run P file digest fileName w :
  storeModel P file digest fileName w =
  match dbFault P PutModel with
  | Some e => (Throw e, w, [Db PutModel])
  | None =>
      (Return tt,
       {| modelStatus := modelStatus w;
          modelStore := Some (mkStoredModel file digest fileName);
          chunkStore := chunkStore w |},
       [Db PutModel])
  end.
Proof.
  unfold storeModel, bind, modify. rewrite db_run.
  destruct (dbFault P PutModel); reflexivity.
Qed.

Lemma getModel_run P w :
  getModel P w =
  match dbFault P GetModel with
  | Some e => (Throw e, w, [Db GetModel])
  | None => (Return (modelStore w), w, [Db GetModel])
  end.
Proof.
  unfold getModel, bind, getWorld, ret. rewrite db_run.
  destruct (dbFault P GetModel); reflexivity.
Qed.

Lemma deleteModel_run P w :
  deleteModel P w =
  match dbFault P DeleteModel with
  | Some e => (Throw e, w, [Db DeleteModel])
  | None =>
      (Return tt,
       {| modelStatus := modelStatus w;
          modelStore := None;
          chunkStore := chunkStore w |},
       [Db DeleteModel])
  end.
Proof.
  unfold deleteModel, bind, modify. rewrite db_run.
  destruct (dbFault P DeleteModel); reflexivity.
Qed.

(** X14: [verifyModel] never throws and never changes the state.  Without
    an imported model it answers [false] without touching the database;
    otherwise it answers [true] exactly when [getModel] does not throw
    and returns a row whose digest is the digest of the status. *)
Theorem verifyModel_answer (P : Platform) (w : World) :
  world (verifyModel P w) = w /\
  (isImported (modelStatus w) = false -> events (verifyModel P w) = []) /\
  exists answer,
    outcome (verifyModel P w) = Return answer /\
    (answer = true <->
     isImported (modelStatus w) = true /\
     dbFault P GetModel = None /\
     exists row, modelStore w = Some row /\
                 sha256 (modelStatus w) = Some (sm_sha256 row)).
Proof.
  rewrite verifyModel_run.
  destruct (isImported (modelStatus w)); cbn [negb].
  2:{ split; [reflexivity |]. split; [reflexivity |].
      exists false. split; [reflexivity |].
      split; [discriminate | intros (H & _); discriminate]. }
  destruct (dbFault P GetModel) as [e |].
  { split; [reflexivity |]. split; [discriminate |].
    exists false. split; [reflexivity |].
    split; [discriminate | intros (_ & H & _); discriminate]. }
  split; [reflexivity |]. split; [discriminate |].
  eexists. split; [reflexivity |].
  destruct (modelStore w) as [row |].
  2:{ split; [discriminate | intros (_ & _ & row & H & _); discriminate]. }
  destruct (sha256 (modelStatus w)) as [s |].
  2:{ split; [discriminate | intros (_ & _ & row' & _ & H); discriminate]. }
  rewrite String.eqb_eq. split.
  - intros <-. repeat split. exists row. auto.
  - intros (_ & _ & row' & Hrow & Hs). congruence.
Qed.

(** X15: the model table round trip: after [storeModel], [getModel]
    returns the row stored, and [verifyModel] answers [true] when the row
    carries the digest of an imported status; after [deleteModel],
    [getModel] returns nothing and [verifyModel] answers [false]. *)
Theorem model_row_round_trip
  (P : Platform) (file : File) (digest fileName : string) (w : World) :
  dbFault P PutModel = None ->
  dbFault P GetModel = None ->
  dbFault P DeleteModel = None ->
  let stored := world (storeModel P file digest fileName w) in
  let deleted := world (deleteModel P stored) in
  outcome (getModel P stored)
    = Return (Some (mkStoredModel file digest fileName)) /\
  outcome (getModel P deleted) = Return None /\
  (isImported (modelStatus w) = true ->
   sha256 (modelStatus w) = Some digest ->
   outcome (verifyModel P stored) = Return true) /\
  outcome (verifyModel P deleted) = Return false /\
  chunkStore deleted = chunkStore w /\
  modelStatus deleted = modelStatus w.
Proof.
  intros Hput Hget Hdel. cbv zeta.
  rewrite storeModel_run, Hput. cbn [world fst snd].
  rewrite deleteModel_run, Hdel. cbn [world fst snd].
  rewrite !getModel_run, !verifyModel_run, Hget.
  cbn [outcome fst modelStatus modelStore chunkStore sm_sha256].
  repeat split.
  - intros -> ->. cbn [negb]. rewrite String.eqb_refl. reflexivity.
  - destruct (negb _); reflexivity.
Qed.

Lemma model_row_round_trip_witness :
  outcome (getModel quietPlatform
             (world (storeModel quietPlatform model100 testDigest
                       "model.gguf" initialWorld)))
  = Return (Some (mkStoredModel model100 testDigest "model.gguf")).
Proof.
  apply (model_row_round_trip quietPlatform model100 testDigest "model.gguf"
           initialWorld); reflexivity.
Defined.

(** ** The hex encoding of digests *)

Lemma hexDecode_byte (b : byte) (rest : string) :
  hexDecode (padStart2 (toString16 b) ++ rest) =
  match hexDecode rest with
  | Some bs => Some (b :: bs)
  | None => None
  end.
Proof. destruct b; cbn; destruct (hexDecode rest); reflexivity. Qed.

Lemma length_byte (b : byte) : String.length (padStart2 (toString16 b)) = 2%nat.
Proof. destruct b; reflexivity. Qed.

Lemma length_append (s1 s2 : string) :
  String.length (s1 ++ s2) = (String.length s1 + String.length s2)%nat.
Proof. induction s1; cbn; congruence. Qed.

(** X16: the digest string has two lowercase hex digits for every byte of
    the hash (64 for a 32-byte hash), decodes back to the bytes, and so
    differs for different hashes. *)
Theorem hexEncode_faithful (bs : list byte) :
  String.length (hexEncode bs) = (2 * List.length bs)%nat /\
  isHexString (hexEncode bs) = true /\
  hexDecode (hexEncode bs) = Some bs /\
  forall bs', hexEncode bs = hexEncode bs' -> bs = bs'.
Proof.
  assert (Hdec : forall l, hexDecode (hexEncode l) = Some l).
  { induction l as [| b l IH]; [reflexivity |].
    cbn [hexEncode fold_right]. fold (hexEncode l).
    rewrite hexDecode_byte, IH. reflexivity. }
  split; [| split; [apply isHexString_hexEncode | split; [apply Hdec |]]].
  - induction bs as [| b bs IH]; [reflexivity |].
    cbn [hexEncode fold_right]. fold (hexEncode bs).
    rewrite length_append, length_byte, IH. cbn [List.length]. lia.
  - intros bs' Heq. apply (f_equal hexDecode) in Heq.
    rewrite !Hdec in Heq. congruence.
Qed.

Lemma calculateSHA256_agrees_with_import_witness :
  sha256 (modelStatus (world (importModel quietPlatform model100 initialWorld)))
  = Some (hexEncode (SHA256 quietPlatform (arrayBuffer (content model100)))).
Proof.
  apply (calculateSHA256_agrees_with_import quietPlatform model100
           initialWorld).
  - reflexivity.
  - exact importModel_quiet_completes.
Defined.

Lemma handleFileSelect_selects_valid_new_files_witness :
  fst (handleFileSelect initialStatus model100) = Some model100 /\
  exists t, handleFileSelect initialStatus model_txt = (None, [t])
            /\ toast_destructive t = true.
Proof.
  destruct (handleFileSelect_selects_valid_new_files initialStatus model100)
    as (Hsel & _).
  destruct (handleFileSelect_selects_valid_new_files initialStatus model_txt)
    as (_ & _ & Hinv).
  split.
  - apply Hsel. split; [exact validFile_model100 |].
    intros (Himp & _). discriminate Himp.
  - apply Hinv. left. reflexivity.
Defined.

Lemma modelReady_follows_last_session_witness :
  modelReady
    (modelStatus (world (importModel quietPlatform model100 initialWorld)))
  = true /\
  modelReady
    (modelStatus (world (importModel quietPlatform model_txt initialWorld)))
  = false.
Proof.
  split.
  - apply (modelReady_follows_last_session quietPlatform model100 initialWorld).
    exact importModel_quiet_completes.
  - apply (modelReady_follows_last_session quietPlatform model_txt initialWorld)
      with (e := ErrorObject UI_MESSAGES.INVALID_FILE_TYPE).
    reflexivity.
Defined.

(** ** Status updates compose *)

(** X17: two [setModelStatus] calls in a row leave the state one call with
    the merged update leaves (for every key the later value wins, an
    explicit [undefined] included), and repeating an update changes
    nothing. *)
Theorem setModelStatus_composes (u1 u2 : StatusUpdate) (w : World) :
  world (setModelStatus u2 (world (setModelStatus u1 w)))
    = world (setModelStatus (merge u1 u2) w) /\
  world (setModelStatus u1 (world (setModelStatus u1 w)))
    = world (setModelStatus u1 w) /\
  modelStore (world (setModelStatus u1 w)) = modelStore w /\
  chunkStore (world (setModelStatus u1 w)) = chunkStore w.
Proof.
  rewrite !setModelStatus_run. cbn [world fst snd].
  unfold withStatus. cbn [modelStatus modelStore chunkStore].
  rewrite spread_merge, spread_twice. repeat split.
Qed.

(** ** What a completed import presupposes *)

(** X2: [importModel] completes only for a [.gguf] file of 100 MiB to
    15 GiB, on a platform whose quota API answered with more than 2 GiB
    free and whose [clearChunks], [getAll] and hashing did not throw. *)
Theorem importModel_completes_only_if
  (P : Platform) (file : File) (w : World) :
  outcome (importModel P file w) = Return tt ->
  validFile file /\
  (exists est,
      storageManager P = EstimateResolves est /\
      (orZero (quota est) - orZero (usage est) > 2 * GiB)%Z) /\
  dbFault P ClearChunks = None /\
  dbFault P GetAllChunks = None /\
  digestFault P = None.
Proof.
  intros Hdone.
  pose proof (importModel_ImportRun P file w) as Hrun.
  rewrite Hdone in Hrun.
  inversion Hrun as [rows Hv Hq Hclear Hc Hget Hdig w1 digest Ho Hw Ht |].
  split; [exact Hv |]. split; [| auto].
  unfold quotaAnswer in Hq.
  destruct (storageManager P) as [| e | est]; try discriminate Hq.
  exists est. split; [reflexivity |].
  cbn [hasQuota] in Hq. apply Z.gtb_lt in Hq. lia.
Qed.

Lemma importModel_completes_only_if_witness :
  validFile model100.
Proof.
  apply (importModel_completes_only_if quietPlatform model100 initialWorld).
  exact importModel_quiet_completes.
Defined.

(* ------------------------------------------------------------------ *)
(** * Properties of the Ollama store *)

Module OllamaFacts.
Import Ollama.

(** X21: [getSuggestions] asks the model only when Ollama mode is on and
    both tests have passed; otherwise it throws the error of the first
    flag that is off, sends nothing and leaves the store as it is. *)
Theorem getSuggestions_guards
  (net : Network) (userInput : string) (state : Store) :
  let s := ollamaStatus state in
  (ready s = false ->
   getSuggestions net userInput state
   = (inl (ErrorObject (refusal s)), state, [])) /\
  (ready s = true ->
   snd (getSuggestions net userInput state)
   = [Generate (mkConfig (serverUrl s) (modelName s)) userInput]).
Proof.
  cbv zeta. unfold ready, refusal, getSuggestions.
  destruct (isOllamaMode (ollamaStatus state)),
           (isConnected (ollamaStatus state)),
           (isModelAvailable (ollamaStatus state));
    cbn [negb andb]; split; intros H; try discriminate H; try reflexivity.
  destruct (generateSuggestions net _ userInput); reflexivity.
Qed.

Lemma getSuggestions_guards_witness :
  getSuggestions alwaysFine "hello" initialStore
  = (inl (ErrorObject "Ollama mode not enabled"), initialStore, []).
Proof.
  apply (getSuggestions_guards alwaysFine "hello" initialStore). reflexivity.
Defined.

(** X22: [testConnection] never throws and sends one GET to
    [serverUrl/api/tags]; it reports connected exactly when the request
    resolves with an ok status and a body that parses as JSON, records
    that answer in [isConnected], leaves [lastError] undefined exactly
    when connected, and does not touch [isModelAvailable]. *)
Theorem testConnection_answer (net : Network) (state : Store) :
  let s := ollamaStatus state in
  let request := GetTags (serverUrl s ++ "/api/tags") in
  let result := fst (fst (testConnection net state)) in
  let after := ollamaStatus (snd (fst (testConnection net state))) in
  snd (testConnection net state) = [Fetch request] /\
  (fst result = true <->
   exists r, fetch net request = FetchResolves r
             /\ ok r = true /\ jsonRejects r = None) /\
  (snd result = None <-> fst result = true) /\
  isConnected after = fst result /\
  lastError after = snd result /\
  lastTestTime after = Some (now net) /\
  isModelAvailable after = isModelAvailable s /\
  isOllamaMode after = isOllamaMode s.
Proof.
  cbv zeta. unfold testConnection, api_testConnection.
  cbn [cfg_serverUrl cfg_modelName].
  set (request := GetTags _).
  destruct (fetch net request) as [e | r] eqn:Hfetch;
    [| destruct (ok r) eqn:Hok; [destruct (jsonRejects r) eqn:Hjson |]];
    cbn [negb fst snd ollamaStatus isConnected isModelAvailable lastError
         lastTestTime isOllamaMode];
    repeat split; try reflexivity; try discriminate;
    try (intros (r' & Hr & Hok' & Hjson'); congruence).
  intros _. exists r. auto.
Qed.

(** X23: [testModel] sends one POST to [serverUrl/api/generate] with the
    prompt "test" and reports the model available exactly when the
    request resolves with an ok status (the body is not looked at); it
    records the answer in [isModelAvailable] and does not touch
    [isConnected]. *)
Theorem testModel_answer (net : Network) (state : Store) :
  let s := ollamaStatus state in
  let request :=
    PostGenerate (serverUrl s ++ "/api/generate") (modelName s) "test" in
  let result := fst (fst (testModel net state)) in
  let after := ollamaStatus (snd (fst (testModel net state))) in
  snd (testModel net state) = [Fetch request] /\
  (fst result = true <->
   exists r, fetch net request = FetchResolves r /\ ok r = true) /\
  (snd result = None <-> fst result = true) /\
  isModelAvailable after = fst result /\
  lastError after = snd result /\
  isConnected after = isConnected s /\
  isOllamaMode after = isOllamaMode s.
Proof.
  cbv zeta. unfold testModel, api_testModel.
  cbn [cfg_serverUrl cfg_modelName].
  set (request := PostGenerate _ _ _).
  destruct (fetch net request) as [e | r] eqn:Hfetch;
    [| destruct (ok r) eqn:Hok; [| destruct (bodyText r) eqn:Hbody]];
    cbn [negb fst snd ollamaStatus isConnected isModelAvailable lastError
         lastTestTime isOllamaMode];
    repeat split; try reflexivity; try discriminate;
    try (intros (r' & Hr & Hok'); congruence).
  intros _. exists r. auto.
Qed.

(** X24: changing the configuration invalidates both tests: after
    [updateConfig], [getSuggestions] refuses and sends nothing, whatever
    the store held; once [testConnection] and [testModel] have passed
    again and Ollama mode is on, it asks the model with the new server
    and model name. *)
Theorem updateConfig_requires_new_tests
  (net : Network) (newServerUrl newModelName userInput : string)
  (state : Store) :
  let changed := updateConfig newServerUrl newModelName state in
  getSuggestions net userInput changed
  = (inl (ErrorObject (refusal (ollamaStatus changed))), changed, []) /\
  getSuggestions net userInput (setOllamaMode true changed)
  = (inl (ErrorObject
            "Ollama server not connected. Please test connection first."),
     setOllamaMode true changed, []) /\
  let tested1 := snd (fst (testConnection net changed)) in
  let tested2 := snd (fst (testModel net tested1)) in
  (fst (fst (fst (testConnection net changed))) = true ->
   fst (fst (fst (testModel net tested1))) = true ->
   snd (getSuggestions net userInput (setOllamaMode true tested2))
   = [Generate (mkConfig newServerUrl newModelName) userInput]).
Proof.
  cbv zeta. split; [| split].
  - unfold getSuggestions, refusal, updateConfig.
    cbn [ollamaStatus isOllamaMode isConnected isModelAvailable].
    destruct (isOllamaMode (ollamaStatus state)); reflexivity.
  - reflexivity.
  - intros Hc Hm.
    unfold getSuggestions, setOllamaMode, testModel, testConnection in *.
    destruct (api_testConnection net _) as [resultC callsC].
    cbn [fst snd ollamaStatus isOllamaMode isConnected isModelAvailable
         serverUrl modelName updateConfig] in *.
    destruct (api_testModel net _) as [resultM callsM].
    cbn [fst snd ollamaStatus isOllamaMode isConnected isModelAvailable
         serverUrl modelName] in *.
    rewrite Hc, Hm. cbn [negb].
    destruct (generateSuggestions net _ userInput); reflexivity.
Qed.

Lemma updateConfig_requires_new_tests_witness :
  snd (getSuggestions alwaysFine "hello"
         (setOllamaMode true
            (snd (fst (testModel alwaysFine
                         (snd (fst (testConnection alwaysFine
                                      (updateConfig "http://box:11434"
                                                    "gemma3n:e2b"
                                                    initialStore)))))))))
  = [Generate (mkConfig "http://box:11434" "gemma3n:e2b") "hello"].
Proof.
  apply (updateConfig_requires_new_tests alwaysFine "http://box:11434"
           "gemma3n:e2b" "hello" initialStore); reflexivity.
Defined.

Lemma includes_prefix (rest : string) :
  includes ("Ollama API error: " ++ rest) "Ollama API error" = true.
Proof. reflexivity. Qed.

(** X25: when the model call fails, [getSuggestions] records the message
    of the error in [lastError] and changes nothing else; an error of
    [generateSuggestions] about a bad HTTP status ("Ollama API error:
    ...") is replaced by the fixed server-error message, an error whose
    message mentions neither that nor "parsing failed" is thrown on as it
    is. *)
Theorem getSuggestions_failure
  (net : Network) (userInput : string) (state : Store) (error : Thrown) :
  let s := ollamaStatus state in
  let config := mkConfig (serverUrl s) (modelName s) in
  ready s = true ->
  generateSuggestions net config userInput = inl error ->
  let r := getSuggestions net userInput state in
  snd (fst r) = withLastError (Some (messageOr "Unknown error" error)) state /\
  snd r = [Generate config userInput] /\
  (forall rest, error = ErrorObject ("Ollama API error: " ++ rest) ->
     fst (fst r)
     = inl (ErrorObject
              "Ollama server error. Please check if Ollama is running.")) /\
  (includes (messageOr "Unknown error" error) "Ollama API error" = false ->
   includes (messageOr "Unknown error" error) "parsing failed" = false ->
   fst (fst r) = inl error).
Proof.
  cbv zeta. unfold ready, getSuggestions. intros Hready Hgen.
  apply andb_true_iff in Hready. destruct Hready as [Hready Hm].
  apply andb_true_iff in Hready. destruct Hready as [Hmode Hc].
  rewrite Hmode, Hc, Hm, Hgen. cbn [negb fst snd].
  repeat split.
  - intros rest ->. cbn [messageOr]. rewrite includes_prefix. reflexivity.
  - intros H1 H2. rewrite H1, H2. reflexivity.
Qed.

Lemma getSuggestions_failure_witness :
  fst (fst (getSuggestions serverDown "hello" readyStore))
  = inl (ErrorObject "Ollama server error. Please check if Ollama is running.").
Proof.
  destruct (getSuggestions_failure serverDown "hello" readyStore
              (ErrorObject "Ollama API error: 500 model crashed"))
    as (_ & _ & Hmap & _); [reflexivity | reflexivity |].
  apply (Hmap "500 model crashed"). reflexivity.
Defined.

End OllamaFacts.
